(** * graphjoiner.requests: compiling a GraphQL document into a Request tree

    Shallow embedding of [src/graphjoiner/requests.py].

    The parsed document is a graph of graphql-core AST objects.  The only
    objects the compiler mutates after they are shared are the Python lists
    held in [SelectionSet.selections] ([_merge_fields] extends them with
    [+=]), so those lists live in an explicit [store] and AST nodes refer to
    them by location; every other AST object is copied before it is changed
    and is modelled as a value.

    The recursion of the compiler follows fragment references and the
    store, so it is bounded by [fuel], the depth of the Python call stack. *)

From stdpp Require Import gmap strings list fin_maps.

Local Set Warnings "-register-all,-clear-no-such-hyp".

(** ** Exceptions and results *)

(** Python exceptions, by class and payload. *)
Inductive exn : Type :=
| KeyError (key : string)
| AttributeError (msg : string)
| Exception (msg : string)
| GraphQLError (msg : string)
| NoOperationError
| MultipleOperationsError.

(** Outcome of a call: a value, a raised exception, or a call stack deeper
    than the bound. *)
Inductive res (A : Type) : Type :=
| Ok (a : A)
| Raise (e : exn)
| OutOfFuel.
Arguments Ok {A} a.
Arguments Raise {A} e.
Arguments OutOfFuel {A}.

#[global] Instance res_ret : MRet res := λ A a, Ok a.
#[global] Instance res_bind : MBind res := λ A B f m,
  match m with
  | Ok a => f a
  | Raise e => Raise e
  | OutOfFuel => OutOfFuel
  end.

#[global] Instance res_fmap : FMap res := λ A B f m,
  match m with
  | Ok a => Ok (f a)
  | Raise e => Raise e
  | OutOfFuel => OutOfFuel
  end.

(** [d[k]] on a Python dict. *)
Definition dict_get {V} (d : gmap string V) (k : string) : res V :=
  match d !! k with
  | Some v => Ok v
  | None => Raise (KeyError k)
  end.

(** A [for] loop that threads an accumulator and stops at the first
    exception. *)
Fixpoint foldM {A B} (f : B → A → res B) (acc : B) (l : list A) : res B :=
  match l with
  | [] => Ok acc
  | x :: l' => acc' ← f acc x; foldM f acc' l'
  end.

(** ** Python values and the graphql-core AST *)

Inductive pyvalue : Type :=
| PyNone
| PyBool (b : bool)
| PyInt (z : Z)
| PyStr (s : string)
| PyList (l : list pyvalue).

(** [v is True] and [v is False] on the result of [dict.get]. *)
Definition is_True (v : option pyvalue) : bool :=
  match v with Some (PyBool true) => true | _ => false end.
Definition is_False (v : option pyvalue) : bool :=
  match v with Some (PyBool false) => true | _ => false end.

Inductive ValueAst : Type :=
| VariableValue (name : string)
| IntValue (z : Z)
| StringValue (s : string)
| BooleanValue (b : bool)
| EnumValue (s : string)
| ListValue (l : list ValueAst).

(** Location of a Python list of selections. *)
Definition loc := nat.

Module Argument.
Record t := mk { name : string; value : ValueAst }.
End Argument.

Module Directive.
Record t := mk { name : string; arguments : list Argument.t }.
End Directive.

Module SelectionSet.
Record t := mk { selections : loc }.
End SelectionSet.

Module Field.
Record t := mk {
  alias : option string;
  name : string;
  arguments : list Argument.t;
  directives : list Directive.t;
  selection_set : option SelectionSet.t }.
End Field.

Module FragmentSpread.
Record t := mk { name : string; directives : list Directive.t }.
End FragmentSpread.

Module InlineFragment.
Record t := mk {
  type_condition : option string;
  directives : list Directive.t;
  selection_set : SelectionSet.t }.
End InlineFragment.

Module VariableDefinition.
Record t := mk {
  variable : string;
  type : string;
  default_value : option ValueAst }.
End VariableDefinition.

Module OperationDefinition.
Record t := mk {
  operation : string;
  name : option string;
  variable_definitions : list VariableDefinition.t;
  directives : list Directive.t;
  selection_set : SelectionSet.t }.
(** A shallow copy whose selection set is a copy that holds the list [l]. *)
Definition with_selections (o : t) (l : loc) : t :=
  mk (operation o) (name o) (variable_definitions o) (directives o)
     (SelectionSet.mk l).
End OperationDefinition.

Module FragmentDefinition.
Record t := mk {
  name : string;
  type_condition : string;
  directives : list Directive.t;
  selection_set : SelectionSet.t }.
End FragmentDefinition.

(** An AST object, by class. *)
Inductive Node : Type :=
| NField (f : Field.t)
| NFragmentSpread (s : FragmentSpread.t)
| NInlineFragment (i : InlineFragment.t)
| NOperationDefinition (o : OperationDefinition.t)
| NFragmentDefinition (d : FragmentDefinition.t).

Module Document.
Record t := mk { definitions : list Node }.
End Document.

(** The heap of selection lists; a location that was never allocated reads
    as the empty list. *)
Abbreviation store := (gmap loc (list Node)).

Definition class_name (n : Node) : string :=
  match n with
  | NField _ => "Field"
  | NFragmentSpread _ => "FragmentSpread"
  | NInlineFragment _ => "InlineFragment"
  | NOperationDefinition _ => "OperationDefinition"
  | NFragmentDefinition _ => "FragmentDefinition"
  end.

Definition no_attribute {A} (cls attr : string) : res A :=
  Raise (AttributeError ("'" +:+ cls +:+ "' object has no attribute '" +:+ attr +:+ "'")).

(** [node.directives]: every class above has the attribute. *)
Definition node_directives (n : Node) : list Directive.t :=
  match n with
  | NField f => Field.directives f
  | NFragmentSpread s => FragmentSpread.directives s
  | NInlineFragment i => InlineFragment.directives i
  | NOperationDefinition o => OperationDefinition.directives o
  | NFragmentDefinition d => FragmentDefinition.directives d
  end.

(** [node.selection_set]: a spread has none. *)
Definition node_selection_set (n : Node) : res (option SelectionSet.t) :=
  match n with
  | NField f => Ok (Field.selection_set f)
  | NFragmentSpread _ => no_attribute "FragmentSpread" "selection_set"
  | NInlineFragment i => Ok (Some (InlineFragment.selection_set i))
  | NOperationDefinition o => Ok (Some (OperationDefinition.selection_set o))
  | NFragmentDefinition d => Ok (Some (FragmentDefinition.selection_set d))
  end.

(** [node.selection_set.selections]. *)
Definition node_selections (n : Node) : res loc :=
  ss ← node_selection_set n;
  match ss with
  | Some s => Ok (SelectionSet.selections s)
  | None => no_attribute "NoneType" "selections"
  end.

(** [node.name.value]: [InlineFragment] has no [name] slot, and the name of
    an anonymous operation is [None]. *)
Definition node_name_value (n : Node) : res string :=
  match n with
  | NField f => Ok (Field.name f)
  | NFragmentSpread s => Ok (FragmentSpread.name s)
  | NInlineFragment _ => no_attribute "InlineFragment" "name"
  | NOperationDefinition o =>
      match OperationDefinition.name o with
      | Some s => Ok s
      | None => no_attribute "NoneType" "value"
      end
  | NFragmentDefinition d => Ok (FragmentDefinition.name d)
  end.

(** [getattr(ast, "arguments", [])]. *)
Definition node_arguments (n : Node) : list Argument.t :=
  match n with
  | NField f => Field.arguments f
  | _ => []
  end.

(** ** The schema side *)

Module GraphQLArgument.
Record t := mk { type : string; default_value : option pyvalue }.
End GraphQLArgument.

(** A join type is named; its object is found in the registry. *)
Definition JoinType := string.

(** A field descriptor: its argument schema and the type it leads to. *)
Module FieldDesc.
Record t := mk { args : gmap string GraphQLArgument.t; target : JoinType }.
End FieldDesc.

(** [GraphQLSkipDirective.args] and [GraphQLIncludeDirective.args]. *)
Definition GraphQLSkipDirective_args : gmap string GraphQLArgument.t :=
  {[ "if" := GraphQLArgument.mk "Boolean!" None ]}.
Definition GraphQLIncludeDirective_args : gmap string GraphQLArgument.t :=
  {[ "if" := GraphQLArgument.mk "Boolean!" None ]}.

(** ** Requests *)

Inductive Request : Type :=
| mkRequest (key : option string) (field : option FieldDesc.t)
    (args : gmap string pyvalue) (selections : option (list Request))
    (join_selections : list Request).

Module Req.
Definition key (r : Request) := let 'mkRequest k _ _ _ _ := r in k.
Definition field (r : Request) := let 'mkRequest _ f _ _ _ := r in f.
Definition args (r : Request) := let 'mkRequest _ _ a _ _ := r in a.
Definition selections (r : Request) := let 'mkRequest _ _ _ s _ := r in s.
Definition join_selections (r : Request) := let 'mkRequest _ _ _ _ j := r in j.
End Req.

Module DocumentRequest.
Record t := mk { query : Request; schema_query : option Document.t }.
End DocumentRequest.

(** ** Helpers of [graphjoiner.util] *)

(** Modelled from the spec: [util.single] is not among the sources.  The
    spec requires exactly one operation definition and names the two
    failures [NoOperationError] and [MultipleOperationsError]. *)
Definition single {A} (values : list A) : res A :=
  match values with
  | [] => Raise NoOperationError
  | [x] => Ok x
  | _ :: _ :: _ => Raise MultipleOperationsError
  end.

(** Modelled from the spec: [util.find] is not among the sources.  It is
    used to pick the selection that names the introspection meta-field and
    yields [None] when there is none: the first element the predicate
    accepts.  An exception of the predicate propagates. *)
Fixpoint find {A} (predicate : A → res bool) (values : list A) : res (option A) :=
  match values with
  | [] => Ok None
  | value :: values' =>
      b ← predicate value;
      if b : bool then Ok (Some value) else find predicate values'
  end.

(** ** [collections.OrderedDict] keyed by output key *)

Abbreviation odict := (list (string * Field.t)).

Fixpoint od_get (d : odict) (k : string) : option Field.t :=
  match d with
  | [] => None
  | (k', v) :: d' => if decide (k' = k) then Some v else od_get d' k
  end.

(** [d[k] = v]: an existing key keeps its position, a new one goes last. *)
Fixpoint od_set (d : odict) (k : string) (v : Field.t) : odict :=
  match d with
  | [] => [(k, v)]
  | (k', v') :: d' =>
      if decide (k' = k) then (k, v) :: d' else (k', v') :: od_set d' k v
  end.

Definition od_values (d : odict) : list Field.t := d.*2.
Definition od_keys (d : odict) : list string := d.*1.

(** ** The compiler *)

Definition _field_name (ast : Field.t) : string := Field.name ast.

Definition field_key (ast : Field.t) : string :=
  match Field.alias ast with
  | None => _field_name ast
  | Some a => a
  end.

Section compiler.
(** The argument coercer of graphql-core and the registry of join types
    are collaborators. *)
Variable get_argument_values :
  gmap string GraphQLArgument.t → list Argument.t → gmap string pyvalue →
  res (gmap string pyvalue).
Variable fields : JoinType → gmap string FieldDesc.t.

Section with_variables.
Variable variables : gmap string pyvalue.

(** What one directive decides: [Ok false] when it excludes the node. *)
Definition directive_allows (directive : Directive.t) : res bool :=
  let name := Directive.name directive in
  if decide (name = "skip") then
    args ← get_argument_values GraphQLSkipDirective_args
              (Directive.arguments directive) variables;
    Ok (negb (is_True (args !! "if")))
  else if decide (name = "include") then
    args ← get_argument_values GraphQLIncludeDirective_args
              (Directive.arguments directive) variables;
    Ok (negb (is_False (args !! "if")))
  else Raise (Exception ("Unknown directive: " +:+ name)).

(** The loop of [_should_include_node]: the first excluding directive
    returns at once. *)
Fixpoint should_include_loop (directives : list Directive.t) : res bool :=
  match directives with
  | [] => Ok true
  | directive :: directives' =>
      ok ← directive_allows directive;
      if ok : bool then should_include_loop directives' else Ok false
  end.

Definition _should_include_node (node : Node) : res bool :=
  should_include_loop (node_directives node).

(** A directive that excludes its selection, in the words of the spec: a
    skip whose [if] resolves to true or an include whose [if] resolves to
    false. *)
Definition directive_excludes (directive : Directive.t) : Prop :=
  (Directive.name directive = "skip" ∧
   ∃ args,
     get_argument_values GraphQLSkipDirective_args
       (Directive.arguments directive) variables = Ok args ∧
     args !! "if" = Some (PyBool true)) ∨
  (Directive.name directive = "include" ∧
   ∃ args,
     get_argument_values GraphQLIncludeDirective_args
       (Directive.arguments directive) variables = Ok args ∧
     args !! "if" = Some (PyBool false)).

Section with_fragments.
Variable fragments : gmap string FragmentDefinition.t.

Definition unknown_selection {A} (selection : Node) : res A :=
  Raise (Exception ("Unknown selection: <class 'graphql.language.ast." +:+
                    class_name selection +:+ "'>")).

(** The body of the loop of [_add_fields]; [recur] is the recursive call. *)
Definition add_selection
    (recur : Node → list Field.t → res (list Field.t))
    (field_selections : list Field.t) (selection : Node)
    : res (list Field.t) :=
  inc ← _should_include_node selection;
  if inc : bool then
    match selection with
    | NField f => Ok (field_selections ++ [f])
    | NFragmentSpread s =>
        d ← dict_get fragments (FragmentSpread.name s);
        recur (NFragmentDefinition d) field_selections
    | NInlineFragment _ => recur selection field_selections
    | _ => unknown_selection selection
    end
  else Ok field_selections.

Fixpoint _add_fields (fuel : nat) (σ : store) (ast : Node)
    (field_selections : list Field.t) : res (list Field.t) :=
  match fuel with
  | 0 => OutOfFuel
  | S fuel' =>
      l ← node_selections ast;
      foldM (add_selection (_add_fields fuel' σ)) field_selections (σ !!! l)
  end.

Definition _collect_fields (fuel : nat) (σ : store) (ast : Node)
    : res (list Field.t) :=
  _add_fields fuel σ ast [].

(** Expansion of a list of selections in the words of the spec: a field that
    passes the directives is appended, a fragment spread is looked up by
    name and its selection set expanded in place, an inline fragment's
    selection set is expanded the same way, and a selection that the
    directives exclude contributes nothing.  Type conditions play no part. *)
Inductive expands (σ : store) : list Node → list Field.t → Prop :=
| expands_nil : expands σ [] []
| expands_excluded selection rest fs :
    _should_include_node selection = Ok false →
    expands σ rest fs →
    expands σ (selection :: rest) fs
| expands_field f rest fs :
    _should_include_node (NField f) = Ok true →
    expands σ rest fs →
    expands σ (NField f :: rest) (f :: fs)
| expands_spread s d rest fs1 fs2 :
    _should_include_node (NFragmentSpread s) = Ok true →
    fragments !! FragmentSpread.name s = Some d →
    expands σ (σ !!! SelectionSet.selections (FragmentDefinition.selection_set d)) fs1 →
    expands σ rest fs2 →
    expands σ (NFragmentSpread s :: rest) (fs1 ++ fs2)
| expands_inline i rest fs1 fs2 :
    _should_include_node (NInlineFragment i) = Ok true →
    expands σ (σ !!! SelectionSet.selections (InlineFragment.selection_set i)) fs1 →
    expands σ rest fs2 →
    expands σ (NInlineFragment i :: rest) (fs1 ++ fs2).

(** One iteration of the loop of [_merge_fields].  [copy] is shallow: the
    copied selection set still holds the list object of the stored field,
    which [+=] extends in place. *)
Definition merge_step (st : store * odict) (selection : Field.t)
    : res (store * odict) :=
  let '(σ, merged) := st in
  let key := field_key selection in
  match od_get merged key with
  | Some stored =>
      match Field.selection_set selection with
      | Some incoming =>
          match Field.selection_set stored with
          | Some own =>
              let l := SelectionSet.selections own in
              Ok (<[l := (σ !!! l) ++ (σ !!! SelectionSet.selections incoming)]> σ,
                  od_set merged key stored)
          | None => no_attribute "NoneType" "selections"
          end
      | None => Ok (σ, merged)
      end
  | None => Ok (σ, od_set merged key selection)
  end.

Definition merge_loop (st : store * odict) (selections : list Field.t)
    : res (store * odict) :=
  foldM merge_step st selections.

Definition _merge_fields (σ : store) (selections : list Field.t)
    : res (store * list Field.t) :=
  '(σ', merged) ← merge_loop (σ, []) selections;
  Ok (σ', od_values merged).

(** The list comprehension of [_graphql_selections]: the children are built
    one after the other, each in the store the previous one left. *)
Fixpoint build_children {A} (build : store → A → res (store * Request))
    (σ : store) (l : list A) : res (store * list Request) :=
  match l with
  | [] => Ok (σ, [])
  | x :: l' =>
      '(σ1, r) ← build σ x;
      '(σ2, rs) ← build_children build σ1 l';
      Ok (σ2, r :: rs)
  end.

(** One element of the list comprehension; [recur] is
    [_request_from_selection]. *)
Definition request_child
    (recur : store → Field.t → FieldDesc.t → res (store * Request))
    (fields : gmap string FieldDesc.t) (σ : store) (selection : Field.t)
    : res (store * Request) :=
  fd ← dict_get fields (_field_name selection);
  recur σ selection fd.

Fixpoint request_from_graphql_ast (fuel : nat) (σ : store) (ast : Node)
    (root : JoinType) (field : option FieldDesc.t) : res (store * Request) :=
  match fuel with
  | 0 => OutOfFuel
  | S fuel' =>
      let key :=
        match ast with
        | NField f => Some (field_key f)
        | _ => None
        end in
      args ← match field with
             | None => Ok ∅
             | Some fd =>
                 get_argument_values (FieldDesc.args fd) (node_arguments ast)
                   variables
             end;
      '(σ', selections) ← _graphql_selections fuel' σ ast root;
      Ok (σ', mkRequest key field args selections [])
  end
with _graphql_selections (fuel : nat) (σ : store) (ast : Node)
    (root : JoinType) : res (store * option (list Request)) :=
  match fuel with
  | 0 => OutOfFuel
  | S fuel' =>
      ss ← node_selection_set ast;
      match ss with
      | None => Ok (σ, None)
      | Some _ =>
          let fields := fields root in
          collected ← _collect_fields fuel' σ ast;
          '(σ1, field_selections) ← _merge_fields σ collected;
          '(σ2, rs) ←
            build_children
              (request_child (_request_from_selection fuel') fields) σ1
              (filter (λ selection, _field_name selection ≠ "__schema")
                 field_selections);
          Ok (σ2, Some rs)
      end
  end
with _request_from_selection (fuel : nat) (σ : store) (selection : Field.t)
    (field : FieldDesc.t) : res (store * Request) :=
  match fuel with
  | 0 => OutOfFuel
  | S fuel' =>
      request_from_graphql_ast fuel' σ (NField selection)
        (FieldDesc.target field) (Some field)
  end.

(** What the list comprehension promises of the child built for a merged
    selection against the registry [flds]: the descriptor registered under
    the selection's name, the output key, the coerced arguments, and
    children compiled against the descriptor's target type. *)
Definition child_of (flds : gmap string FieldDesc.t) (selection : Field.t)
    (r : Request) : Prop :=
  ∃ fd,
    flds !! _field_name selection = Some fd ∧
    Req.key r = Some (field_key selection) ∧
    Req.field r = Some fd ∧
    get_argument_values (FieldDesc.args fd) (Field.arguments selection)
      variables = Ok (Req.args r) ∧
    Req.join_selections r = [] ∧
    ∃ fuel σ σ',
      _graphql_selections fuel σ (NField selection) (FieldDesc.target fd) =
        Ok (σ', Req.selections r).

End with_fragments.
End with_variables.

(** Every Request below [r] carries a descriptor registered in the type its
    parent was compiled against. *)
Inductive well_resolved : JoinType → Request → Prop :=
| well_resolved_leaf root r :
    Req.selections r = None → well_resolved root r
| well_resolved_node root r children :
    Req.selections r = Some children →
    Forall (λ c, ∃ name fd,
                   fields root !! name = Some fd ∧
                   Req.field c = Some fd ∧
                   well_resolved (FieldDesc.target fd) c) children →
    well_resolved root r.

(** [dict(...)] over the fragment definitions: a later definition of a name
    replaces an earlier one. *)
Definition fragments_of (definitions : list Node)
    : gmap string FragmentDefinition.t :=
  foldl (λ m definition,
           match definition with
           | NFragmentDefinition d => <[FragmentDefinition.name d := d]> m
           | _ => m
           end) ∅ definitions.

(** The operation definitions with their positions. *)
Definition operations_of (definitions : list Node)
    : list (nat * OperationDefinition.t) :=
  omap (λ pair : nat * Node,
          match pair.2 with
          | NOperationDefinition o => Some (pair.1, o)
          | _ => None
          end) (imap pair definitions).

(** The predicate given to [find]. *)
Definition names_schema (selection : Node) : res bool :=
  n ← node_name_value selection; Ok (bool_decide (n = "__schema")).

(** The introspection document: copies of the operation, of its selection
    set and of the definition list, and one new list of selections. *)
Definition schema_query_of (σ : store) (document : Document.t)
    (definition_index : nat) (operation : OperationDefinition.t)
    (schema_selection : option Node) : store * option Document.t :=
  match schema_selection with
  | None => (σ, None)
  | Some selection =>
      let l := fresh (dom σ) in
      let schema_query_definition :=
        OperationDefinition.with_selections operation l in
      (<[l := [selection]]> σ,
       Some (Document.mk
               (<[definition_index := NOperationDefinition schema_query_definition]>
                  (Document.definitions document))))
  end.

Definition request_from_graphql_document (fuel : nat) (σ : store)
    (document : Document.t) (query_root mutation_root : JoinType)
    (variables : gmap string pyvalue) : res (store * DocumentRequest.t) :=
  let fragments := fragments_of (Document.definitions document) in
  '(definition_index, operation) ←
    single (operations_of (Document.definitions document));
  let root :=
    if decide (OperationDefinition.operation operation = "mutation")
    then mutation_root else query_root in
  schema_selection ←
    find names_schema
      (σ !!! SelectionSet.selections (OperationDefinition.selection_set operation));
  let '(σ1, schema_query) :=
    schema_query_of σ document definition_index operation schema_selection in
  '(σ2, query) ←
    request_from_graphql_ast variables fragments fuel σ1
      (NOperationDefinition operation) root None;
  Ok (σ2, DocumentRequest.mk query schema_query).

End compiler.

(** The query tree of a compilation, without the store. *)
Definition compiled_query (r : res (store * DocumentRequest.t)) : res Request :=
  p ← r; Ok (DocumentRequest.query p.2).

(** ** Specification-side notions *)

(** The order in which keys are first seen, in the words of the spec: each
    key once, at the position of its first occurrence. *)
Fixpoint first_seen (keys : list string) : list string :=
  match keys with
  | [] => []
  | k :: keys' => k :: filter (λ k', k' ≠ k) (first_seen keys')
  end.

(** The merged selections in the words of the spec: for every output key
    the first selection that has it, at the position of that selection. *)
Fixpoint first_by_key (selections : list Field.t) : list Field.t :=
  match selections with
  | [] => []
  | selection :: selections' =>
      selection ::
      filter (λ s, field_key s ≠ field_key selection) (first_by_key selections')
  end.

(** Every entry of the dictionary is stored under its own output key. *)
Definition od_keyed (d : odict) : Prop := Forall (λ p, field_key p.2 = p.1) d.

(** ** A coercer and a schema for the closed examples *)

(** [value_from_ast] of graphql-core on literals and variables, without
    type coercion. *)
Fixpoint value_from_ast (variables : gmap string pyvalue) (value_ast : ValueAst)
    : option pyvalue :=
  match value_ast with
  | VariableValue name => variables !! name
  | IntValue z => Some (PyInt z)
  | StringValue s => Some (PyStr s)
  | BooleanValue b => Some (PyBool b)
  | EnumValue s => Some (PyStr s)
  | ListValue l => Some (PyList (omap (value_from_ast variables) l))
  end.

Definition argument_named (arg_asts : list Argument.t) (name : string)
    : option Argument.t :=
  last (filter (λ a, Argument.name a = name) arg_asts).

(** A coercer in the manner of graphql-core's [get_argument_values]: each
    declared argument takes the value given in the selection, else its
    default, and is left out when it has neither. *)
Definition literal_argument_values (arg_defs : gmap string GraphQLArgument.t)
    (arg_asts : list Argument.t) (variables : gmap string pyvalue)
    : res (gmap string pyvalue) :=
  Ok (map_imap
        (λ name arg_def,
           match argument_named arg_asts name ≫=
                 λ a, value_from_ast variables (Argument.value a) with
           | Some v => Some v
           | None => GraphQLArgument.default_value arg_def
           end) arg_defs).

Definition leaf (name : string) : Field.t := Field.mk None name [] [] None.
Definition branch (name : string) (l : loc) : Field.t :=
  Field.mk None name [] [] (Some (SelectionSet.mk l)).
Definition spread (name : string) : Node :=
  NFragmentSpread (FragmentSpread.mk name []).
Definition directive_if (name : string) (v : ValueAst) : Directive.t :=
  Directive.mk name [Argument.mk "if" v].

Definition query_at (l : loc) : OperationDefinition.t :=
  OperationDefinition.mk "query" None [] [] (SelectionSet.mk l).
Definition fragment_at (name : string) (l : loc) : Node :=
  NFragmentDefinition (FragmentDefinition.mk name "Root" [] (SelectionSet.mk l)).

Definition scalar : FieldDesc.t := FieldDesc.mk ∅ "Scalar".
Definition to_root : FieldDesc.t := FieldDesc.mk ∅ "Root".

(** A root type with scalar fields [a] and [b] and a relationship [r] back
    to the root. *)
Definition example_fields (t : JoinType) : gmap string FieldDesc.t :=
  if decide (t = "Root")
  then {[ "a" := scalar; "b" := scalar; "r" := to_root ]}
  else ∅.

Definition compile_example (σ : store) (definitions : list Node)
    (variables : gmap string pyvalue) : res (store * DocumentRequest.t) :=
  request_from_graphql_document literal_argument_values example_fields
    16 σ (Document.mk definitions) "Root" "Root" variables.

(** ** Documents of the closed examples *)

(** [{ b a b }]. *)
Definition store_bab : store :=
  {[ 1 := [NField (leaf "b"); NField (leaf "a"); NField (leaf "b")] ]}.

(** [{ r r { a } }]: a leaf selection followed by a selection of the same
    key with a selection set. *)
Definition store_leaf_then_branch : store :=
  {[ 1 := [NField (leaf "r"); NField (branch "r" 2)];
     2 := [NField (leaf "a")] ]}.

(** [{ a @skip(if: $x) }] and [{ a @skip }]. *)
Definition store_skip_x : store :=
  {[ 1 := [NField (Field.mk None "a" []
                     [directive_if "skip" (VariableValue "x")] None)] ]}.
Definition store_skip_no_if : store :=
  {[ 1 := [NField (Field.mk None "a" [] [Directive.mk "skip" []] None)] ]}.

Definition a_skip_x : Field.t :=
  Field.mk None "a" [] [directive_if "skip" (VariableValue "x")] None.
Definition x_true : gmap string pyvalue := {[ "x" := PyBool true ]}.
Definition x_false : gmap string pyvalue := {[ "x" := PyBool false ]}.

(** [a @skip(if: true) @foo]. *)
Definition a_skip_then_foo : Field.t :=
  Field.mk None "a" []
    [directive_if "skip" (BooleanValue true); Directive.mk "foo" []] None.
Definition store_skip_then_foo : store := {[ 1 := [NField a_skip_then_foo] ]}.

(** [{ a ...Missing }] and [{ a @foo }]. *)
Definition store_missing_spread : store :=
  {[ 1 := [NField (leaf "a"); spread "Missing"] ]}.
Definition a_foo : Field.t := Field.mk None "a" [] [Directive.mk "foo" []] None.

(** [{ a ...F }] with [fragment F on Root { a }], and [{ a }]. *)
Definition store_a_spread : store :=
  {[ 1 := [NField (leaf "a"); spread "F"];
     2 := [NField (leaf "a")];
     3 := [NField (leaf "a")] ]}.

Definition fragments_F : gmap string FragmentDefinition.t :=
  {[ "F" := FragmentDefinition.mk "F" "Root" [] (SelectionSet.mk 2) ]}.

(** [{ a zzz }], where the root has no field [zzz]. *)
Definition store_a_zzz : store :=
  {[ 1 := [NField (leaf "a"); NField (leaf "zzz")] ]}.

(** [{ r { __schema { types } a } }]. *)
Definition store_nested_schema : store :=
  {[ 1 := [NField (branch "r" 2)];
     2 := [NField (branch "__schema" 3); NField (leaf "a")];
     3 := [NField (leaf "types")] ]}.

(** [{ ...F }] with [fragment F on Root { __schema { types } a }]. *)
Definition store_schema_in_fragment : store :=
  {[ 1 := [spread "F"];
     2 := [NField (branch "__schema" 3); NField (leaf "a")];
     3 := [NField (leaf "types")] ]}.

(** [{ __schema { types } a }]. *)
Definition store_schema_a : store :=
  {[ 1 := [NField (branch "__schema" 2); NField (leaf "a")];
     2 := [NField (leaf "types")] ]}.

(** ** Well-formed stores *)

(** The list a node refers to, if it has a selection set. *)
Definition node_loc (n : Node) : option loc :=
  match node_selection_set n with
  | Ok (Some ss) => Some (SelectionSet.selections ss)
  | _ => None
  end.

(** Every node held in a list of the store refers to a list in [D]: the
    heap has no reference out of [D]. *)
Definition store_closed (D : gset loc) (σ : store) : Prop :=
  ∀ l nodes n l',
    σ !! l = Some nodes → n ∈ nodes → node_loc n = Some l' → l' ∈ D.

Definition field_closed (D : gset loc) (f : Field.t) : Prop :=
  ∀ l', node_loc (NField f) = Some l' → l' ∈ D.

(** [{ __schema { types } a @skip(if: true) }]. *)
Definition store_schema_skipped_a : store :=
  {[ 1 := [NField (branch "__schema" 2);
           NField (Field.mk None "a" []
                     [directive_if "skip" (BooleanValue true)] None)];
     2 := [NField (leaf "types")] ]}.

(** [{ x: __schema { types } x: a }]. *)
Definition store_schema_alias_clash : store :=
  {[ 1 := [NField (Field.mk (Some "x") "__schema" [] []
                     (Some (SelectionSet.mk 2)));
           NField (Field.mk (Some "x") "a" [] [] None)];
     2 := [NField (leaf "types")] ]}.

(** [{ ...F }] in a document without fragment [F]; [{ F }], where the root
    has no field [F]; and [{ a zzz @skip(if: true) }]. *)
Definition store_only_spread : store := {[ 1 := [spread "F"] ]}.
Definition store_only_field_F : store := {[ 1 := [NField (leaf "F")] ]}.
Definition store_a_skipped_zzz : store :=
  {[ 1 := [NField (leaf "a");
           NField (Field.mk None "zzz" []
                     [directive_if "skip" (BooleanValue true)] None)] ]}.

(** [{ ... on Root { a } __schema { types } }]. *)
Definition store_inline_then_schema : store :=
  {[ 1 := [NInlineFragment
             (InlineFragment.mk (Some "Root") [] (SelectionSet.mk 2));
           NField (branch "__schema" 3)];
     2 := [NField (leaf "a")];
     3 := [NField (leaf "types")] ]}.

(** [{ __schema { types } __schema { queryType } }]. *)
Definition store_two_schema : store :=
  {[ 1 := [NField (branch "__schema" 2); NField (branch "__schema" 3)];
     2 := [NField (leaf "types")];
     3 := [NField (leaf "queryType")] ]}.

(** [{ ...F }] with [fragment F on Root { ...F a }]: a fragment that
    spreads itself. *)
Definition store_self_spread : store :=
  {[ 1 := [spread "F"]; 2 := [spread "F"; NField (leaf "a")] ]}.

(** [{ a ... on Root { b } }] followed by nothing, and [{ ...F b }]. *)
Definition store_a_inline_b : store :=
  {[ 1 := [NField (leaf "a");
           NInlineFragment (InlineFragment.mk (Some "Root") [] (SelectionSet.mk 2))];
     2 := [NField (leaf "b")] ]}.

(** Every selection list of [σ] is an initial segment of the list at the
    same location in [σ']. *)
Definition store_grows (σ σ' : store) : Prop :=
  ∀ l, (σ !!! l) `prefix_of` (σ' !!! l).

(** [{ r { a } r { b } }] and [{ r { a } }]. *)
Definition store_r_twice : store :=
  {[ 1 := [NField (branch "r" 2); NField (branch "r" 3)];
     2 := [NField (leaf "a")];
     3 := [NField (leaf "b")];
     4 := [NField (branch "r" 2)] ]}.

(** [{ x: a x: zzz(n: 1) }] and [{ x: a }]. *)
Definition a_as_x : Field.t := Field.mk (Some "x") "a" [] [] None.
Definition zzz_as_x : Field.t :=
  Field.mk (Some "x") "zzz" [Argument.mk "n" (IntValue 1)] [] None.
Definition store_alias_twice : store :=
  {[ 1 := [NField a_as_x; NField zzz_as_x]; 2 := [NField a_as_x] ]}.

(** The shape of a compiled tree: no node carries join selections, and the
    children of a node have pairwise distinct output keys and a field
    descriptor each. *)
Inductive request_shape : Request → Prop :=
| request_shape_leaf r :
    Req.selections r = None →
    Req.join_selections r = [] →
    request_shape r
| request_shape_node r children :
    Req.selections r = Some children →
    Req.join_selections r = [] →
    NoDup (Req.key <$> children) →
    Forall (λ c, is_Some (Req.key c) ∧ is_Some (Req.field c) ∧
                 request_shape c) children →
    request_shape r.

(** ** Notions for the definitions of a document *)

(** [operations_of] with the positions renumbered by [g]. *)
Definition operations_from (g : nat → nat) (definitions : list Node)
    : list (nat * OperationDefinition.t) :=
  omap (λ p : nat * Node,
          match p.2 with
          | NOperationDefinition o => Some (p.1, o)
          | _ => None
          end) (imap (λ j, pair (g j)) definitions).

(** The fragment definition a node is, if it defines [name]. *)
Definition fragment_named (name : string) (definition : Node)
    : option FragmentDefinition.t :=
  match definition with
  | NFragmentDefinition d =>
      if decide (FragmentDefinition.name d = name) then Some d else None
  | _ => None
  end.

(** Two fragment tables define the same names with the same selection
    sets. *)
Definition same_selection_sets
    (fragments fragments' : gmap string FragmentDefinition.t) : Prop :=
  ∀ name,
    FragmentDefinition.selection_set <$> fragments !! name =
    FragmentDefinition.selection_set <$> fragments' !! name.

(** Two definitions agree up to the type condition and the directives of a
    fragment definition. *)
Definition same_definition (definition definition' : Node) : Prop :=
  match definition, definition' with
  | NFragmentDefinition d, NFragmentDefinition d' =>
      FragmentDefinition.name d = FragmentDefinition.name d' ∧
      FragmentDefinition.selection_set d = FragmentDefinition.selection_set d'
  | _, _ => definition = definition'
  end.

(** [{ ...F }] in a store that holds the lists of two definitions of [F]. *)
Definition store_spread_two_definitions : store :=
  {[ 1 := [spread "F"]; 2 := [NField (leaf "a")]; 3 := [NField (leaf "b")] ]}.

(** ** Results: inversion and loops *)

Lemma bind_Ok {A B} (m : res A) (f : A → res B) (b : B) :
  m ≫= f = Ok b → ∃ a, m = Ok a ∧ f a = Ok b.
Proof. destruct m; simpl; intros; [eauto | done | done]. Qed.

Lemma bind_Ok_l {A B} (a : A) (f : A → res B) : Ok a ≫= f = f a.
Proof. reflexivity. Qed.

Lemma foldM_app {A B} (f : B → A → res B) acc l1 l2 :
  foldM f acc (l1 ++ l2) = foldM f acc l1 ≫= λ acc', foldM f acc' l2.
Proof.
  revert acc. induction l1 as [|x l1 IH]; intros acc; simpl; [done|].
  destruct (f acc x); simpl; auto.
Qed.

Lemma filter_all {A} (P : A → Prop) `{!∀ x, Decision (P x)} (l : list A) :
  (∀ x, P x) → filter P l = l.
Proof.
  intros HP. induction l as [|x l IH]; [done|].
  rewrite filter_cons_True by done. by f_equal.
Qed.

(** ** The ordered dictionary *)

Lemma od_get_None d k : od_get d k = None ↔ k ∉ od_keys d.
Proof.
  induction d as [|[k' v] d IH]; simpl.
  - split; [intros _; apply not_elem_of_nil | done].
  - case_decide; subst.
    + split; [done | intros []; left].
    + rewrite IH, not_elem_of_cons. naive_solver.
Qed.

Lemma od_get_Some_keys d k v : od_get d k = Some v → k ∈ od_keys d.
Proof.
  intros H. destruct (decide (k ∈ od_keys d)) as [|Hn]; [done|].
  apply od_get_None in Hn. congruence.
Qed.

Lemma od_keys_set_new d k v : k ∉ od_keys d → od_keys (od_set d k v) = od_keys d ++ [k].
Proof.
  induction d as [|[k' v'] d IH]; simpl; [done|].
  intros [? ?]%not_elem_of_cons. case_decide; [congruence|].
  simpl. f_equal. by apply IH.
Qed.

Lemma od_keys_set_old d k v : k ∈ od_keys d → od_keys (od_set d k v) = od_keys d.
Proof.
  induction d as [|[k' v'] d IH]; simpl; [by intros ?%elem_of_nil|].
  intros Hk. case_decide; subst; simpl; [done|].
  f_equal. apply IH. apply elem_of_cons in Hk as [?|?]; [congruence | done].
Qed.

Lemma od_set_get_id d k v : od_get d k = Some v → od_set d k v = d.
Proof.
  induction d as [|[k' v'] d IH]; simpl; [done|].
  case_decide; subst; [by intros [= ->] | intros; f_equal; auto].
Qed.

Lemma foldM_raise {A B} (f : B → A → res B) acc pre x post acc' e :
  foldM f acc pre = Ok acc' →
  f acc' x = Raise e →
  foldM f acc (pre ++ x :: post) = Raise e.
Proof.
  intros Hpre Hx. rewrite foldM_app, Hpre, bind_Ok_l. simpl. by rewrite Hx.
Qed.

Lemma foldM_never_Ok {A B} (f : B → A → res B) acc pre x post :
  (∀ a r, f a x ≠ Ok r) →
  ∀ out, foldM f acc (pre ++ x :: post) ≠ Ok out.
Proof.
  intros Hx out. rewrite foldM_app.
  intros (acc' & _ & H)%bind_Ok. simpl in H.
  apply bind_Ok in H as (r & Hr & _). by eapply Hx.
Qed.

Lemma Forall_filter_keep {A} (P Q : A → Prop) `{!∀ x, Decision (Q x)}
    (l : list A) :
  Forall P l → Forall P (filter Q l).
Proof.
  rewrite !Forall_forall. intros HP x [_ ?]%list_elem_of_filter. auto.
Qed.

(** ** Merging *)

Lemma first_seen_elem_of keys k : k ∈ first_seen keys ↔ k ∈ keys.
Proof.
  induction keys as [|k0 keys IH]; simpl; [done|].
  rewrite !elem_of_cons, list_elem_of_filter, IH.
  destruct (decide (k = k0)); naive_solver.
Qed.

Lemma first_seen_NoDup keys : NoDup (first_seen keys).
Proof.
  induction keys as [|k0 keys IH]; simpl; [constructor|].
  constructor.
  - rewrite list_elem_of_filter. naive_solver.
  - by apply NoDup_filter.
Qed.

Lemma od_keyed_get d k v : od_keyed d → od_get d k = Some v → field_key v = k.
Proof.
  induction 1 as [|[k' v'] d Hp _ IH]; simpl; [done|].
  case_decide; subst; [by intros [= <-] | done].
Qed.

Lemma od_keyed_set d k v : od_keyed d → field_key v = k → od_keyed (od_set d k v).
Proof.
  induction 1 as [|[k' v'] d Hp Hd IH]; simpl; intros Hk.
  - by repeat constructor.
  - case_decide; subst; constructor; auto. by apply IH.
Qed.

Lemma od_keyed_values d : od_keyed d → field_key <$> od_values d = od_keys d.
Proof.
  unfold od_values, od_keys.
  induction 1 as [|[k v] d Hp _ IH]; simpl in *; [done | by f_equal].
Qed.

Lemma first_by_key_keys selections :
  field_key <$> first_by_key selections = first_seen (field_key <$> selections).
Proof.
  induction selections as [|s selections IH]; csimpl; [done|].
  f_equal. rewrite <- IH. clear IH.
  induction (first_by_key selections) as [|s' l IHl]; [done|].
  rewrite filter_cons. csimpl. rewrite filter_cons.
  repeat case_decide; csimpl; try congruence; done.
Qed.

Lemma od_values_set_new d k v :
  k ∉ od_keys d → od_values (od_set d k v) = od_values d ++ [v].
Proof.
  unfold od_values, od_keys.
  induction d as [|[k' v'] d IH]; simpl; [done|].
  intros [? ?]%not_elem_of_cons. case_decide; [congruence|].
  simpl. f_equal. by apply IH.
Qed.

Section merging.
Implicit Types (σ : store) (merged : odict) (selection : Field.t).

Lemma merge_step_keys σ merged selection σ' merged' :
od_keyed merged →
merge_step (σ, merged) selection = Ok (σ', merged') →
od_keyed merged' ∧
od_keys merged' =
  od_keys merged ++
  filter (λ k, k ∉ od_keys merged) [field_key selection].
Proof.
intros Hk. unfold merge_step.
destruct (od_get merged (field_key selection)) as [stored|] eqn:Hget.
- assert (field_key selection ∈ od_keys merged) as Hin
    by eauto using od_get_Some_keys.
  rewrite filter_cons_False, filter_nil, app_nil_r by naive_solver.
  destruct (Field.selection_set selection) as [incoming|].
  + destruct (Field.selection_set stored) as [own|]; [|done].
    intros [= <- <-]. rewrite (od_set_get_id _ _ _ Hget). done.
  + by intros [= <- <-].
- apply od_get_None in Hget.
  intros [= <- <-]. split; [by apply od_keyed_set|].
  rewrite filter_cons_True by done.
  by rewrite od_keys_set_new.
Qed.

Lemma merge_loop_keys selections : ∀ σ merged σ' merged',
od_keyed merged →
merge_loop (σ, merged) selections = Ok (σ', merged') →
od_keyed merged' ∧
od_keys merged' =
  od_keys merged ++
  filter (λ k, k ∉ od_keys merged) (first_seen (field_key <$> selections)).
Proof.
unfold merge_loop.
induction selections as [|selection selections IH];
  intros σ merged σ' merged' Hk; simpl.
- intros [= <- <-]. by rewrite app_nil_r.
- intros ([σ1 merged1] & Hstep & Hrest)%bind_Ok.
  destruct (merge_step_keys _ _ _ _ _ Hk Hstep) as [Hk1 Hkeys1].
  destruct (IH _ _ _ _ Hk1 Hrest) as [Hk' ->].
  split; [done|]. rewrite Hkeys1.
  destruct (decide (field_key selection ∈ od_keys merged)) as [Hin|Hin].
  + rewrite !filter_cons_False, filter_nil, app_nil_r by naive_solver.
    f_equal. rewrite list_filter_filter. apply list_filter_iff.
    intros k. naive_solver.
  + rewrite !filter_cons_True, filter_nil by done.
    rewrite <- app_assoc. simpl. do 2 f_equal.
    rewrite list_filter_filter. apply list_filter_iff.
    intros k. rewrite not_elem_of_app, not_elem_of_cons. 
    pose proof (not_elem_of_nil k). naive_solver.
Qed.

Lemma merge_loop_values selections : ∀ σ merged σ' merged',
  od_keyed merged →
  merge_loop (σ, merged) selections = Ok (σ', merged') →
  od_keyed merged' ∧
  od_values merged' =
    od_values merged ++
    filter (λ s, field_key s ∉ od_keys merged) (first_by_key selections).
Proof.
  unfold merge_loop.
  induction selections as [|selection selections IH];
    intros σ merged σ' merged' Hk; simpl.
  - intros [= <- <-]. by rewrite app_nil_r.
  - intros ([σ1 merged1] & Hstep & Hrest)%bind_Ok.
    destruct (merge_step_keys _ _ _ _ _ Hk Hstep) as [Hk1 Hkeys1].
    destruct (IH _ _ _ _ Hk1 Hrest) as [Hk' ->].
    split; [done|].
    destruct (decide (field_key selection ∈ od_keys merged)) as [Hin|Hin].
    + rewrite filter_cons_False by naive_solver.
      assert (merged1 = merged) as ->.
      { unfold merge_step in Hstep.
        destruct (od_get merged (field_key selection)) as [stored|] eqn:Hget;
          [|by apply od_get_None in Hget].
        destruct (Field.selection_set selection);
          [|by injection Hstep as <- <-].
        destruct (Field.selection_set stored); [|done].
        injection Hstep as <- <-. by apply od_set_get_id. }
      f_equal. rewrite list_filter_filter. apply list_filter_iff.
      intros s. split; [|by intros [? _]].
      intros Hs. split; [done|]. intros Heq. by rewrite Heq in Hs.
    + rewrite filter_cons_True by done.
      assert (merged1 = od_set merged (field_key selection) selection) as ->.
      { unfold merge_step in Hstep. apply od_get_None in Hin.
        rewrite Hin in Hstep. by injection Hstep as <- <-. }
      rewrite od_values_set_new, od_keys_set_new by done.
      rewrite <- app_assoc. simpl. do 2 f_equal.
      rewrite list_filter_filter. apply list_filter_iff.
      intros s. rewrite not_elem_of_app, not_elem_of_cons.
      pose proof (not_elem_of_nil (field_key s)). naive_solver.
Qed.

Lemma _merge_fields_first_by_key σ selections σ' (values : list Field.t) :
  _merge_fields σ selections = Ok (σ', values) →
  values = first_by_key selections.
Proof.
  unfold _merge_fields.
  intros ([σ1 d] & Hloop & [= <- <-])%bind_Ok.
  apply merge_loop_values in Hloop as [_ ->]; [|constructor].
  simpl. apply filter_all. intros s. apply not_elem_of_nil.
Qed.

Lemma _merge_fields_keys σ selections σ' (values : list Field.t) :
_merge_fields σ selections = Ok (σ', values) →
field_key <$> values = first_seen (field_key <$> selections).
Proof.
unfold _merge_fields.
intros ([σ1 d] & Hloop & [= <- <-])%bind_Ok.
apply merge_loop_keys in Hloop as [Hk Hkeys]; [|constructor].
rewrite od_keyed_values by done. rewrite Hkeys. simpl.
apply filter_all. intros k. apply not_elem_of_nil.
Qed.

(** A leaf selection under a key that is already present changes nothing. *)
Lemma merge_step_leaf_present σ merged selection :
Field.selection_set selection = None →
field_key selection ∈ od_keys merged →
merge_step (σ, merged) selection = Ok (σ, merged).
Proof.
intros Hleaf Hin. unfold merge_step.
destruct (od_get merged (field_key selection)) eqn:Hget.
- by rewrite Hleaf.
- apply od_get_None in Hget. done.
Qed.

(** A selection with a selection set under the key of a stored leaf. *)
Lemma merge_step_stored_leaf σ merged selection stored incoming :
od_get merged (field_key selection) = Some stored →
Field.selection_set stored = None →
Field.selection_set selection = Some incoming →
merge_step (σ, merged) selection =
  Raise (AttributeError "'NoneType' object has no attribute 'selections'").
Proof.
intros Hget Hstored Hsel. unfold merge_step.
by rewrite Hget, Hsel, Hstored.
Qed.

(** Both sides have a selection set: the list of the stored field is
  extended, the dictionary is unchanged. *)
Lemma merge_step_extend σ merged selection stored own incoming :
od_get merged (field_key selection) = Some stored →
Field.selection_set stored = Some own →
Field.selection_set selection = Some incoming →
merge_step (σ, merged) selection =
  Ok (<[SelectionSet.selections own :=
          (σ !!! SelectionSet.selections own) ++
          (σ !!! SelectionSet.selections incoming)]> σ, merged).
Proof.
intros Hget Hstored Hsel. unfold merge_step.
rewrite Hget, Hsel, Hstored. by rewrite (od_set_get_id _ _ _ Hget).
Qed.

Lemma merge_loop_app st pre post :
merge_loop st (pre ++ post) = merge_loop st pre ≫= λ st', merge_loop st' post.
Proof. apply foldM_app. Qed.

Lemma _merge_fields_drop_leaf σ pre a post :
Field.selection_set a = None →
field_key a ∈ field_key <$> pre →
_merge_fields σ (pre ++ a :: post) = _merge_fields σ (pre ++ post).
Proof.
intros Hleaf Hin. unfold _merge_fields.
rewrite !merge_loop_app.
destruct (merge_loop (σ, []) pre) as [[σ1 m1]| |] eqn:Hpre; [|done..].
rewrite !bind_Ok_l.
apply merge_loop_keys in Hpre as [_ Hkeys]; [|constructor].
simpl in Hkeys. rewrite filter_all in Hkeys by (intros k; apply not_elem_of_nil).
unfold merge_loop at 1. cbn [foldM].
rewrite merge_step_leaf_present; [done | done |].
rewrite Hkeys. by apply first_seen_elem_of.
Qed.

(** Merging leaf selections always succeeds and leaves the store alone. *)
Lemma merge_loop_leaves selections : ∀ σ merged,
  Forall (λ s, Field.selection_set s = None) selections →
  ∃ merged', merge_loop (σ, merged) selections = Ok (σ, merged').
Proof.
  unfold merge_loop.
  induction selections as [|selection selections IH]; intros σ merged Hall;
    simpl; [by eauto|].
  apply Forall_cons in Hall as [Hleaf Hall].
  unfold merge_step at 1. rewrite Hleaf.
  destruct (od_get merged (field_key selection)); rewrite bind_Ok_l; by apply IH.
Qed.

Lemma _merge_fields_leaves σ selections :
  Forall (λ s, Field.selection_set s = None) selections →
  _merge_fields σ selections = Ok (σ, first_by_key selections).
Proof.
  intros Hall.
  destruct (merge_loop_leaves selections σ [] Hall) as [merged' Hloop].
  assert (_merge_fields σ selections = Ok (σ, od_values merged')) as Hm.
  { unfold _merge_fields. by rewrite Hloop. }
  by rewrite Hm, (_merge_fields_first_by_key _ _ _ _ Hm).
Qed.

End merging.

(** ** Directive evaluation *)

Section directives.
Variable get_argument_values :
  gmap string GraphQLArgument.t → list Argument.t → gmap string pyvalue →
  res (gmap string pyvalue).
Variable variables : gmap string pyvalue.

Local Abbreviation directive_allows := (directive_allows get_argument_values variables).
Local Abbreviation directive_excludes := (directive_excludes get_argument_values variables).
Local Abbreviation should_include_loop := (should_include_loop get_argument_values variables).
Local Abbreviation _should_include_node := (_should_include_node get_argument_values variables).

Lemma is_True_spec v : is_True v = true ↔ v = Some (PyBool true).
Proof. destruct v as [[| [] | | |]|]; simpl; naive_solver. Qed.

Lemma is_False_spec v : is_False v = true ↔ v = Some (PyBool false).
Proof. destruct v as [[| [] | | |]|]; simpl; naive_solver. Qed.

Lemma directive_allows_false directive :
  directive_allows directive = Ok false ↔ directive_excludes directive.
Proof.
  unfold directive_allows, directive_excludes.
  repeat case_decide.
  - split.
    + intros (args & Hargs & [= Hb])%bind_Ok. left. split; [done|].
      exists args. split; [done|].
      apply is_True_spec. by destruct (is_True _).
    + intros [(_ & args & -> & Hif)|[? _]]; [|congruence].
      simpl. by rewrite Hif.
  - split.
    + intros (args & Hargs & [= Hb])%bind_Ok. right. split; [done|].
      exists args. split; [done|].
      apply is_False_spec. by destruct (is_False _).
    + intros [[? _]|(_ & args & -> & Hif)]; [congruence|].
      simpl. by rewrite Hif.
  - split; [done | naive_solver].
Qed.

Lemma should_include_loop_false directives b :
  should_include_loop directives = Ok b →
  (b = false ↔ ∃ directive, directive ∈ directives ∧ directive_excludes directive).
Proof.
  revert b. induction directives as [|d directives IH]; intros b; simpl.
  - intros [= <-]. split; [done|].
    intros (? & []%elem_of_nil & _).
  - intros ([] & Hd & Hrest)%bind_Ok.
    + rewrite (IH _ Hrest). split.
      * intros (d' & ? & ?). exists d'. split; [by right | done].
      * intros (d' & [->|?]%elem_of_cons & Hex); [|by eauto].
        apply directive_allows_false in Hex. congruence.
    + injection Hrest as <-. split; [|done]. intros _.
      exists d. split; [left | by apply directive_allows_false].
Qed.

Lemma should_include_loop_and (allow : Directive.t → bool) directives :
  (∀ directive, directive ∈ directives →
     directive_allows directive = Ok (allow directive)) →
  should_include_loop directives = Ok (forallb allow directives).
Proof.
  induction directives as [|d directives IH]; intros Hall; simpl; [done|].
  rewrite (Hall d) by left. simpl.
  destruct (allow d); simpl; [|done].
  apply IH. intros d' ?. apply Hall. by right.
Qed.

Lemma directive_allows_missing_if directive args schema :
  (Directive.name directive = "skip" ∧ schema = GraphQLSkipDirective_args) ∨
  (Directive.name directive = "include" ∧ schema = GraphQLIncludeDirective_args) →
  get_argument_values schema (Directive.arguments directive) variables = Ok args →
  args !! "if" = None →
  directive_allows directive = Ok true.
Proof.
  unfold directive_allows.
  intros [[Hn ->]|[Hn ->]] Hargs Hif; rewrite Hn; simpl;
    rewrite Hargs; simpl; by rewrite Hif.
Qed.

(** The first unknown directive that is reached raises. *)
Lemma should_include_loop_unknown pre directive post :
  should_include_loop pre = Ok true →
  Directive.name directive ≠ "skip" →
  Directive.name directive ≠ "include" →
  should_include_loop (pre ++ directive :: post) =
    Raise (Exception ("Unknown directive: " +:+ Directive.name directive)).
Proof.
  intros Hpre Hs Hi.
  induction pre as [|d pre IH]; simpl in *.
  - unfold directive_allows. by repeat case_decide.
  - destruct (directive_allows d) as [[]| |]; simpl in *; try done.
    by apply IH.
Qed.

Lemma directive_allows_unknown directive :
  Directive.name directive ≠ "skip" →
  Directive.name directive ≠ "include" →
  directive_allows directive =
    Raise (Exception ("Unknown directive: " +:+ Directive.name directive)).
Proof. intros Hs Hi. unfold directive_allows. by repeat case_decide. Qed.

(** Once a directive excludes the selection the rest is not looked at. *)
Lemma should_include_loop_excluded pre post :
  should_include_loop pre = Ok false →
  should_include_loop (pre ++ post) = Ok false.
Proof.
  induction pre as [|d pre IH]; simpl; [done|].
  destruct (directive_allows d) as [[]| |]; simpl; auto.
Qed.

End directives.

(** ** Unfolding the compiler *)

Arguments _add_fields : simpl never.
Arguments request_from_graphql_ast : simpl never.
Arguments _graphql_selections : simpl never.
Arguments _request_from_selection : simpl never.

Section unfolding.
Variable get_argument_values :
  gmap string GraphQLArgument.t → list Argument.t → gmap string pyvalue →
  res (gmap string pyvalue).
Variable fields : JoinType → gmap string FieldDesc.t.
Variable variables : gmap string pyvalue.
Variable fragments : gmap string FragmentDefinition.t.

Local Abbreviation _should_include_node :=
  (_should_include_node get_argument_values variables).
Local Abbreviation add_selection :=
  (add_selection get_argument_values variables fragments).
Local Abbreviation _add_fields :=
  (_add_fields get_argument_values variables fragments).
Local Abbreviation _collect_fields :=
  (_collect_fields get_argument_values variables fragments).
Local Abbreviation request_from_graphql_ast :=
  (request_from_graphql_ast get_argument_values fields variables fragments).
Local Abbreviation _graphql_selections :=
  (_graphql_selections get_argument_values fields variables fragments).
Local Abbreviation _request_from_selection :=
  (_request_from_selection get_argument_values fields variables fragments).

Lemma _add_fields_S fuel σ ast acc :
  _add_fields (S fuel) σ ast acc =
    l ← node_selections ast;
    foldM (add_selection (_add_fields fuel σ)) acc (σ !!! l).
Proof. reflexivity. Qed.

Lemma request_from_graphql_ast_S fuel σ ast root field :
  request_from_graphql_ast (S fuel) σ ast root field =
    args ← match field with
           | None => Ok ∅
           | Some fd =>
               get_argument_values (FieldDesc.args fd) (node_arguments ast) variables
           end;
    '(σ', selections) ← _graphql_selections fuel σ ast root;
    Ok (σ', mkRequest
              match ast with NField f => Some (field_key f) | _ => None end
              field args selections []).
Proof. reflexivity. Qed.

Lemma _graphql_selections_S fuel σ ast root :
  _graphql_selections (S fuel) σ ast root =
    ss ← node_selection_set ast;
    match ss with
    | None => Ok (σ, None)
    | Some _ =>
        collected ← _collect_fields fuel σ ast;
        '(σ1, field_selections) ← _merge_fields σ collected;
        '(σ2, rs) ←
          build_children
            (request_child (_request_from_selection fuel) (fields root)) σ1
            (filter (λ selection, _field_name selection ≠ "__schema")
               field_selections);
        Ok (σ2, Some rs)
    end.
Proof. reflexivity. Qed.

Lemma _request_from_selection_S fuel σ selection field :
  _request_from_selection (S fuel) σ selection field =
    request_from_graphql_ast fuel σ (NField selection)
      (FieldDesc.target field) (Some field).
Proof. reflexivity. Qed.


(** *** The loop of [_add_fields] *)

Lemma add_selection_excluded recur acc selection :
  _should_include_node selection = Ok false →
  add_selection recur acc selection = Ok acc.
Proof. intros H. unfold add_selection. by rewrite H. Qed.

Lemma add_selection_field recur acc f :
  _should_include_node (NField f) = Ok true →
  add_selection recur acc (NField f) = Ok (acc ++ [f]).
Proof. intros H. unfold add_selection. by rewrite H. Qed.

Lemma add_selection_spread recur acc s :
  _should_include_node (NFragmentSpread s) = Ok true →
  add_selection recur acc (NFragmentSpread s) =
    d ← dict_get fragments (FragmentSpread.name s);
    recur (NFragmentDefinition d) acc.
Proof. intros H. unfold add_selection. by rewrite H. Qed.

Lemma add_selection_inline recur acc i :
  _should_include_node (NInlineFragment i) = Ok true →
  add_selection recur acc (NInlineFragment i) = recur (NInlineFragment i) acc.
Proof. intros H. unfold add_selection. by rewrite H. Qed.

(** The code refines the expansion of the spec. *)
Lemma add_selections_expands fuel σ :
  (∀ ast acc r, _add_fields fuel σ ast acc = Ok r →
     ∃ l fs, node_selections ast = Ok l ∧ expands get_argument_values variables fragments σ (σ !!! l) fs ∧ r = acc ++ fs) →
  ∀ selections acc r,
    foldM (add_selection (_add_fields fuel σ)) acc selections = Ok r →
    ∃ fs, expands get_argument_values variables fragments σ selections fs ∧ r = acc ++ fs.
Proof.
  intros IH. induction selections as [|selection selections IHl];
    intros acc r; simpl.
  - intros [= <-]. exists []. split; [constructor | by rewrite app_nil_r].
  - intros (acc1 & Hsel & Hrest)%bind_Ok.
    destruct (IHl _ _ Hrest) as (fs2 & Hfs2 & ->).
    unfold add_selection in Hsel.
    apply bind_Ok in Hsel as ([] & Hinc & Hsel).
    + destruct selection as [f|s|i|o|d]; simpl in Hsel.
      * injection Hsel as <-. exists (f :: fs2). split.
        -- by constructor.
        -- by rewrite <- app_assoc.
      * apply bind_Ok in Hsel as (d & Hd & Hsel).
        unfold dict_get in Hd.
        destruct (fragments !! FragmentSpread.name s) as [d'|] eqn:Hfrag;
          [injection Hd as ->|done].
        apply IH in Hsel as (l & fs1 & Hl & Hfs1 & ->).
        injection Hl as <-.
        exists (fs1 ++ fs2). split.
        -- by econstructor.
        -- by rewrite app_assoc.
      * apply IH in Hsel as (l & fs1 & Hl & Hfs1 & ->).
        injection Hl as <-.
        exists (fs1 ++ fs2). split.
        -- by econstructor.
        -- by rewrite app_assoc.
      * done.
      * done.
    + injection Hsel as <-. exists fs2. split; [|done].
      by constructor.
Qed.

Lemma _add_fields_expands fuel : ∀ σ ast acc r,
  _add_fields fuel σ ast acc = Ok r →
  ∃ l fs, node_selections ast = Ok l ∧
          expands get_argument_values variables fragments σ (σ !!! l) fs ∧
          r = acc ++ fs.
Proof.
  induction fuel as [|fuel IH]; intros σ ast acc r; [done|].
  rewrite _add_fields_S.
  intros (l & Hl & Hloop)%bind_Ok.
  apply add_selections_expands in Hloop as (fs & Hfs & ->); [|by apply IH].
  by exists l, fs.
Qed.

(** Enough fuel computes every expansion. *)
Lemma expands_add_selections σ selections fs :
  expands get_argument_values variables fragments σ selections fs →
  ∃ n, ∀ m acc, n ≤ m →
    foldM (add_selection (_add_fields m σ)) acc selections = Ok (acc ++ fs).
Proof.
  induction 1 as [|selection rest fs Hinc _ [n IH]
                  |f rest fs Hinc _ [n IH]
                  |s d rest fs1 fs2 Hinc Hd _ [n1 IH1] _ [n2 IH2]
                  |i rest fs1 fs2 Hinc _ [n1 IH1] _ [n2 IH2]].
  - exists 0. intros m acc _. simpl. by rewrite app_nil_r.
  - exists n. intros m acc Hm. simpl.
    rewrite add_selection_excluded by done. rewrite bind_Ok_l. by apply IH.
  - exists n. intros m acc Hm. simpl.
    rewrite add_selection_field by done. rewrite bind_Ok_l.
    rewrite IH by done. by rewrite <- app_assoc.
  - exists (S n1 `max` n2). intros m acc Hm. simpl.
    rewrite add_selection_spread by done.
    unfold dict_get. rewrite Hd, bind_Ok_l.
    destruct m as [|m]; [lia|].
    rewrite _add_fields_S. simpl.
    rewrite IH1 by lia. rewrite bind_Ok_l.
    rewrite IH2 by lia. by rewrite app_assoc.
  - exists (S n1 `max` n2). intros m acc Hm. simpl.
    rewrite add_selection_inline by done.
    destruct m as [|m]; [lia|].
    rewrite _add_fields_S. simpl.
    rewrite IH1 by lia. rewrite bind_Ok_l.
    rewrite IH2 by lia. by rewrite app_assoc.
Qed.

Lemma expands_collect_fields σ ast l fs :
  node_selections ast = Ok l →
  expands get_argument_values variables fragments σ (σ !!! l) fs →
  ∃ n, ∀ m, n ≤ m → _collect_fields m σ ast = Ok fs.
Proof.
  intros Hl [n Hn]%expands_add_selections.
  exists (S n). intros [|m] Hm; [lia|].
  unfold _collect_fields. rewrite _add_fields_S, Hl, bind_Ok_l.
  by rewrite Hn by lia.
Qed.

End unfolding.

(** ** More fuel does not change an outcome *)

Lemma foldM_mono {A B} (f g : B → A → res B) l : ∀ acc r,
  (∀ acc x r, f acc x = r → r ≠ OutOfFuel → g acc x = r) →
  foldM f acc l = r → r ≠ OutOfFuel → foldM g acc l = r.
Proof.
  induction l as [|x l IH]; intros acc r Hfg; simpl; [done|].
  destruct (f acc x) as [acc'| e |] eqn:Hx; simpl.
  - intros Hr Hdef. rewrite (Hfg _ _ _ Hx) by done. simpl. by apply IH.
  - intros <- _. by rewrite (Hfg _ _ _ Hx).
  - by intros <-.
Qed.

Lemma build_children_mono {A} (f g : store → A → res (store * Request)) l :
  ∀ σ r,
  (∀ σ x r, f σ x = r → r ≠ OutOfFuel → g σ x = r) →
  build_children f σ l = r → r ≠ OutOfFuel → build_children g σ l = r.
Proof.
  induction l as [|x l IH]; intros σ r Hfg; simpl; [done|].
  destruct (f σ x) as [[σ1 y]| e |] eqn:Hx; simpl.
  - rewrite (Hfg _ _ _ Hx) by done. simpl.
    destruct (build_children f σ1 l) as [[σ2 ys]| e |] eqn:Hl; simpl.
    + intros <- _. by rewrite (IH _ _ Hfg Hl).
    + intros <- _. by rewrite (IH _ _ Hfg Hl).
    + by intros <-.
  - intros <- _. by rewrite (Hfg _ _ _ Hx).
  - by intros <-.
Qed.

Section fuel.
Variable get_argument_values :
  gmap string GraphQLArgument.t → list Argument.t → gmap string pyvalue →
  res (gmap string pyvalue).
Variable fields : JoinType → gmap string FieldDesc.t.
Variable variables : gmap string pyvalue.
Variable fragments : gmap string FragmentDefinition.t.

Local Abbreviation add_selection :=
  (add_selection get_argument_values variables fragments).
Local Abbreviation _add_fields :=
  (_add_fields get_argument_values variables fragments).
Local Abbreviation request_from_graphql_ast :=
  (request_from_graphql_ast get_argument_values fields variables fragments).
Local Abbreviation _graphql_selections :=
  (_graphql_selections get_argument_values fields variables fragments).
Local Abbreviation _request_from_selection :=
  (_request_from_selection get_argument_values fields variables fragments).

Lemma add_selection_mono (f g : Node → list Field.t → res (list Field.t))
    acc selection r :
  (∀ ast acc r, f ast acc = r → r ≠ OutOfFuel → g ast acc = r) →
  add_selection f acc selection = r → r ≠ OutOfFuel →
  add_selection g acc selection = r.
Proof.
  intros Hfg. unfold add_selection.
  destruct (_should_include_node _ _ selection) as [[]| |]; simpl; try done.
  destruct selection as [?|s|?|?|?]; simpl; try done.
  - destruct (dict_get fragments (FragmentSpread.name s)); simpl; try done.
    apply Hfg.
  - apply Hfg.
Qed.

Lemma _add_fields_S_mono fuel : ∀ σ ast acc r,
  _add_fields fuel σ ast acc = r → r ≠ OutOfFuel →
  _add_fields (S fuel) σ ast acc = r.
Proof.
  induction fuel as [|fuel IH]; intros σ ast acc r; [by intros <-|].
  rewrite !(_add_fields_S _ _ _ (S fuel)), (_add_fields_S _ _ _ fuel).
  destruct (node_selections ast) as [l| |]; simpl; try done.
  apply foldM_mono. intros acc' x r'. apply add_selection_mono.
  intros ast' acc'' r''. apply IH.
Qed.

Lemma tree_S_mono fuel :
  (∀ σ ast root field r,
     request_from_graphql_ast fuel σ ast root field = r → r ≠ OutOfFuel →
     request_from_graphql_ast (S fuel) σ ast root field = r) ∧
  (∀ σ ast root r,
     _graphql_selections fuel σ ast root = r → r ≠ OutOfFuel →
     _graphql_selections (S fuel) σ ast root = r) ∧
  (∀ σ selection fd r,
     _request_from_selection fuel σ selection fd = r → r ≠ OutOfFuel →
     _request_from_selection (S fuel) σ selection fd = r).
Proof.
  induction fuel as [|fuel (IHast & IHsels & IHsel)].
  { repeat split; by intros; subst. }
  split; [|split].
  - intros σ ast root field r.
    rewrite (request_from_graphql_ast_S _ _ _ _ (S fuel)),
      (request_from_graphql_ast_S _ _ _ _ fuel).
    destruct (match field with Some _ => _ | None => _ end); simpl; try done.
    destruct (_graphql_selections fuel σ ast root) as [[??]| |] eqn:Hs; simpl.
    + intros <- _. by rewrite (IHsels _ _ _ _ Hs).
    + intros <- _. by rewrite (IHsels _ _ _ _ Hs).
    + by intros <-.
  - intros σ ast root r.
    rewrite (_graphql_selections_S _ _ _ _ (S fuel)),
      (_graphql_selections_S _ _ _ _ fuel).
    destruct (node_selection_set ast) as [[ss|]| |]; simpl; try done.
    unfold _collect_fields.
    destruct (_add_fields fuel σ ast []) as [collected| e |] eqn:Hc; simpl.
    + rewrite (_add_fields_S_mono _ _ _ _ _ Hc) by done. simpl.
      destruct (_merge_fields σ collected) as [[σ1 merged]| |]; simpl; try done.
      assert (∀ σa x ra,
        request_child (_request_from_selection fuel) (fields root) σa x = ra →
        ra ≠ OutOfFuel →
        request_child (_request_from_selection (S fuel)) (fields root) σa x = ra)
        as Hchild.
      { intros σa x ra. unfold request_child.
        destruct (dict_get _ _); simpl; try done. apply IHsel. }
      match goal with
      | |- (build_children ?f ?s ?l ≫= _) = _ → _ =>
          destruct (build_children f s l) as [[??]| |] eqn:Hb
      end; simpl.
      * intros <- _. by rewrite (build_children_mono _ _ _ _ _ Hchild Hb).
      * intros <- _. by rewrite (build_children_mono _ _ _ _ _ Hchild Hb).
      * by intros <-.
    + intros <- _. by rewrite (_add_fields_S_mono _ _ _ _ _ Hc).
    + by intros <-.
  - intros σ selection fd r.
    rewrite (_request_from_selection_S _ _ _ _ (S fuel)),
      (_request_from_selection_S _ _ _ _ fuel).
    apply IHast.
Qed.

Lemma request_from_graphql_ast_mono fuel fuel' σ ast root field r :
  fuel ≤ fuel' →
  request_from_graphql_ast fuel σ ast root field = r → r ≠ OutOfFuel →
  request_from_graphql_ast fuel' σ ast root field = r.
Proof.
  induction 1 as [|fuel' _ IH]; [done|].
  intros Hr Hdef. apply tree_S_mono; auto.
Qed.

End fuel.

(** An outcome of the document compiler other than a call stack that is too
    deep is its outcome for every larger bound. *)
Lemma request_from_graphql_document_mono
    (get_argument_values :
       gmap string GraphQLArgument.t → list Argument.t → gmap string pyvalue →
       res (gmap string pyvalue))
    (fields : JoinType → gmap string FieldDesc.t)
    fuel fuel' (σ : store) document query_root mutation_root variables r :
  fuel ≤ fuel' →
  request_from_graphql_document get_argument_values fields fuel σ document
    query_root mutation_root variables = r →
  r ≠ OutOfFuel →
  request_from_graphql_document get_argument_values fields fuel' σ document
    query_root mutation_root variables = r.
Proof.
  intros Hle. unfold request_from_graphql_document.
  destruct (single _) as [[i operation]| |]; simpl; try done.
  destruct (find _ _) as [sel| |]; simpl; try done.
  destruct (schema_query_of σ document i operation sel) as [σ1 sq].
  destruct (request_from_graphql_ast _ _ _ _ fuel _ _ _ _) as [[??]| |] eqn:Hq;
    simpl.
  - intros <- _.
    by rewrite (request_from_graphql_ast_mono _ _ _ _ _ _ _ _ _ _ _ Hle Hq).
  - intros <- _.
    by rewrite (request_from_graphql_ast_mono _ _ _ _ _ _ _ _ _ _ _ Hle Hq).
  - by intros <-.
Qed.

(** ** The Request tree *)

Lemma single_Ok {A} (values : list A) x : single values = Ok x → values = [x].
Proof. destruct values as [|? [|? ?]]; simpl; congruence. Qed.

Lemma find_Some {A} (p : A → res bool) values x :
  find p values = Ok (Some x) →
  ∃ pre post, values = pre ++ x :: post ∧
              Forall (λ y, p y = Ok false) pre ∧ p x = Ok true.
Proof.
  induction values as [|y values IH]; simpl; [done|].
  intros ([] & Hy & Hrest)%bind_Ok.
  - injection Hrest as ->. by exists [], values.
  - destruct (IH Hrest) as (pre & post & -> & Hpre & Hx).
    exists (y :: pre), post. by repeat constructor.
Qed.

Lemma find_None {A} (p : A → res bool) values :
  find p values = Ok None → Forall (λ y, p y = Ok false) values.
Proof.
  induction values as [|y values IH]; simpl; [constructor|].
  intros ([] & Hy & Hrest)%bind_Ok; [done|].
  constructor; auto.
Qed.

Lemma lookup_insert_fresh (σ : store) l nodes v :
  σ !! l = Some nodes → <[fresh (dom σ) := v]> σ !! l = Some nodes.
Proof.
  intros Hl. rewrite lookup_insert_ne; [done|].
  intros <-. apply (is_fresh (dom σ)). apply elem_of_dom. eauto.
Qed.

Lemma build_children_Forall2 {A} (build : store → A → res (store * Request))
    l : ∀ σ σ' rs,
  build_children build σ l = Ok (σ', rs) →
  Forall2 (λ x r, ∃ σa σb, build σa x = Ok (σb, r)) l rs.
Proof.
  induction l as [|x l IH]; intros σ σ' rs; simpl.
  - intros [= <- <-]. constructor.
  - intros ([σ1 r] & Hx & ([σ2 rs'] & Hrest & [= <- <-])%bind_Ok)%bind_Ok.
    constructor; eauto.
Qed.

Lemma build_children_app {A} (build : store → A → res (store * Request))
    pre post σ :
  build_children build σ (pre ++ post) =
    '(σ1, rs1) ← build_children build σ pre;
    '(σ2, rs2) ← build_children build σ1 post;
    Ok (σ2, rs1 ++ rs2).
Proof.
  revert σ. induction pre as [|x pre IH]; intros σ; simpl.
  - by destruct (build_children build σ post) as [[??]| |].
  - destruct (build σ x) as [[σ1 r]| |]; simpl; [|done..].
    rewrite IH.
    destruct (build_children build σ1 pre) as [[σ2 rs1]| |]; simpl; [|done..].
    by destruct (build_children build σ2 post) as [[??]| |].
Qed.

Section tree.
Variable get_argument_values :
  gmap string GraphQLArgument.t → list Argument.t → gmap string pyvalue →
  res (gmap string pyvalue).
Variable fields : JoinType → gmap string FieldDesc.t.
Variable variables : gmap string pyvalue.
Variable fragments : gmap string FragmentDefinition.t.

Local Abbreviation _collect_fields :=
  (_collect_fields get_argument_values variables fragments).
Local Abbreviation request_from_graphql_ast :=
  (request_from_graphql_ast get_argument_values fields variables fragments).
Local Abbreviation _graphql_selections :=
  (_graphql_selections get_argument_values fields variables fragments).
Local Abbreviation _request_from_selection :=
  (_request_from_selection get_argument_values fields variables fragments).
Local Abbreviation child_of :=
  (child_of get_argument_values fields variables fragments).
Local Abbreviation well_resolved := (well_resolved fields).

Lemma request_child_Ok fuel flds σ selection σ' r :
  request_child (_request_from_selection fuel) flds σ selection = Ok (σ', r) →
  child_of flds selection r.
Proof.
  unfold request_child, dict_get.
  destruct (flds !! _field_name selection) as [fd|] eqn:Hfd; [|done].
  rewrite bind_Ok_l.
  destruct fuel as [|fuel]; [done|]. rewrite _request_from_selection_S.
  destruct fuel as [|fuel]; [done|]. rewrite request_from_graphql_ast_S.
  intros (args & Hargs & ([σ1 sels] & Hsels & [= <- <-])%bind_Ok)%bind_Ok.
  exists fd. simpl. repeat split; try done. eauto.
Qed.

(** The children of a node are the merged selections that are not named
    [__schema], one Request each and in the same order. *)
Lemma _graphql_selections_children fuel σ ast root σ' children :
  _graphql_selections fuel σ ast root = Ok (σ', Some children) →
  ∃ fuel' collected σ1 merged,
    fuel = S fuel' ∧
    _collect_fields fuel' σ ast = Ok collected ∧
    _merge_fields σ collected = Ok (σ1, merged) ∧
    Forall2 (child_of (fields root))
      (filter (λ selection, _field_name selection ≠ "__schema") merged)
      children.
Proof.
  destruct fuel as [|fuel]; [done|]. rewrite _graphql_selections_S.
  intros ([ss|] & Hss & H)%bind_Ok; [|done].
  apply bind_Ok in H as (collected & Hcollect & H).
  apply bind_Ok in H as ([σ1 merged] & Hmerge & H).
  apply bind_Ok in H as ([σ2 rs] & Hbuild & [= <- <-]).
  exists fuel, collected, σ1, merged. repeat split; try done.
  apply build_children_Forall2 in Hbuild.
  eapply Forall2_impl; [done|]. simpl.
  intros selection r (σa & σb & ?). by eapply request_child_Ok.
Qed.

Lemma _graphql_selections_leaf fuel σ ast root σ' :
  _graphql_selections fuel σ ast root = Ok (σ', None) →
  node_selection_set ast = Ok None ∧ σ' = σ.
Proof.
  destruct fuel as [|fuel]; [done|]. rewrite _graphql_selections_S.
  intros ([ss|] & Hss & H)%bind_Ok.
  - apply bind_Ok in H as (collected & Hcollect & H).
    apply bind_Ok in H as ([σ1 merged] & Hmerge & H).
    by apply bind_Ok in H as ([σ2 rs] & Hbuild & [=]).
  - by injection H as <-.
Qed.

(** An unregistered name among the merged selections: the node is never
    built, and the lookup raises as soon as the selections before it are
    built. *)
Lemma _graphql_selections_unknown_field fuel σ ast root ss collected σ1 merged
    selection :
  node_selection_set ast = Ok (Some ss) →
  _collect_fields fuel σ ast = Ok collected →
  _merge_fields σ collected = Ok (σ1, merged) →
  selection ∈ merged →
  _field_name selection ≠ "__schema" →
  fields root !! _field_name selection = None →
  (∀ out, _graphql_selections (S fuel) σ ast root ≠ Ok out) ∧
  (∀ pre post σ2 rs,
     filter (λ selection, _field_name selection ≠ "__schema") merged =
       pre ++ selection :: post →
     build_children
       (request_child (_request_from_selection fuel) (fields root)) σ1 pre =
       Ok (σ2, rs) →
     _graphql_selections (S fuel) σ ast root =
       Raise (KeyError (_field_name selection))).
Proof.
  intros Hss Hcollect Hmerge Hin Hname Hfd.
  assert (∀ σa, request_child (_request_from_selection fuel) (fields root) σa
                  selection = Raise (KeyError (_field_name selection))) as Hraise.
  { intros σa. unfold request_child, dict_get. by rewrite Hfd. }
  split.
  - intros [σ' [children|]] Hout.
    + apply _graphql_selections_children in Hout
        as (fuel' & collected' & σ1' & merged' & [= <-] & Hc & Hm & Hch).
      rewrite Hcollect in Hc. injection Hc as <-.
      rewrite Hmerge in Hm. injection Hm as <- <-.
      assert (selection ∈ filter (λ s, _field_name s ≠ "__schema") merged) as Hf
        by by apply list_elem_of_filter.
      apply list_elem_of_lookup in Hf as [i Hi].
      destruct (Forall2_lookup_l _ _ _ _ _ Hch Hi) as (r & _ & fd & Hfd' & _).
      congruence.
    + apply _graphql_selections_leaf in Hout as [Hnone _]. congruence.
  - intros pre post σ2 rs Hfilter Hpre.
    rewrite _graphql_selections_S, Hss, bind_Ok_l, Hcollect, bind_Ok_l.
    rewrite Hmerge, bind_Ok_l, Hfilter, build_children_app, Hpre, bind_Ok_l.
    simpl. by rewrite Hraise.
Qed.

(** Every compiled tree is resolved against the registry, at every level. *)
Lemma compiled_well_resolved fuel :
  (∀ σ ast root field σ' r,
     request_from_graphql_ast fuel σ ast root field = Ok (σ', r) →
     Req.field r = field ∧ well_resolved root r) ∧
  (∀ σ selection fd σ' r,
     _request_from_selection fuel σ selection fd = Ok (σ', r) →
     Req.field r = Some fd ∧ well_resolved (FieldDesc.target fd) r).
Proof.
  induction fuel as [fuel IH] using lt_wf_ind.
  assert (∀ σ selection fd σ' r,
     _request_from_selection fuel σ selection fd = Ok (σ', r) →
     Req.field r = Some fd ∧ well_resolved (FieldDesc.target fd) r) as Hsel.
  { destruct fuel as [|fuel]; [done|]. intros σ selection fd σ' r.
    rewrite _request_from_selection_S. apply IH. lia. }
  split; [|done].
  destruct fuel as [|fuel]; [done|]. intros σ ast root field σ' r.
  rewrite request_from_graphql_ast_S.
  intros (args & Hargs & ([σ1 [children|]] & Hsels & [= <- <-])%bind_Ok)%bind_Ok.
  2: { split; [done | by apply well_resolved_leaf]. }
  split; [done|].
  eapply well_resolved_node; [done|].
  destruct fuel as [|fuel]; [done|]. rewrite _graphql_selections_S in Hsels.
  apply bind_Ok in Hsels as ([ss|] & Hss & H); [|done].
  apply bind_Ok in H as (collected & Hcollect & H).
  apply bind_Ok in H as ([σ2 merged] & Hmerge & H).
  apply bind_Ok in H as ([σ3 rs] & Hbuild & [= <- <-]).
  apply build_children_Forall2 in Hbuild.
  eapply Forall2_Forall_r; [exact Hbuild|].
  apply Forall_true. intros selection c (σa & σb & Hchild).
  unfold request_child, dict_get in Hchild.
  destruct (fields root !! _field_name selection) as [fd|] eqn:Hfd; [|done].
  rewrite bind_Ok_l in Hchild.
  destruct (IH fuel ltac:(lia)) as [_ IHsel].
  apply IHsel in Hchild as [? ?].
  by exists (_field_name selection), fd.
Qed.

End tree.

(** ** The compiler writes inside the heap it was given *)

Lemma store_closed_total D (σ : store) l :
  store_closed D σ →
  Forall (λ n, ∀ l', node_loc n = Some l' → l' ∈ D) (σ !!! l).
Proof.
  intros Hclosed. rewrite lookup_total_alt.
  destruct (σ !! l) as [nodes|] eqn:Hl; simpl; [|constructor].
  apply Forall_forall. intros n Hn l' Hl'. by eapply Hclosed.
Qed.

Section frame.
Variable get_argument_values :
  gmap string GraphQLArgument.t → list Argument.t → gmap string pyvalue →
  res (gmap string pyvalue).
Variable fields : JoinType → gmap string FieldDesc.t.
Variable variables : gmap string pyvalue.
Variable fragments : gmap string FragmentDefinition.t.
Variable D : gset loc.

Local Abbreviation _add_fields :=
  (_add_fields get_argument_values variables fragments).
Local Abbreviation add_selection :=
  (add_selection get_argument_values variables fragments).
Local Abbreviation request_from_graphql_ast :=
  (request_from_graphql_ast get_argument_values fields variables fragments).
Local Abbreviation _graphql_selections :=
  (_graphql_selections get_argument_values fields variables fragments).
Local Abbreviation _request_from_selection :=
  (_request_from_selection get_argument_values fields variables fragments).

Lemma _add_fields_closed fuel : ∀ (σ : store) ast acc r,
  store_closed D σ →
  Forall (field_closed D) acc →
  _add_fields fuel σ ast acc = Ok r →
  Forall (field_closed D) r.
Proof.
  induction fuel as [|fuel IH]; intros σ ast acc r Hσ Hacc; [done|].
  rewrite _add_fields_S. intros (l & _ & Hloop)%bind_Ok.
  pose proof (store_closed_total D σ l Hσ) as Hnodes.
  revert acc Hacc Hloop.
  induction Hnodes as [|selection selections Hsel _ IHl]; intros acc Hacc; simpl.
  - by intros [= <-].
  - intros (acc1 & Hstep & Hrest)%bind_Ok.
    apply (IHl acc1); [|done].
    unfold add_selection in Hstep.
    apply bind_Ok in Hstep as ([] & _ & Hstep); [|by injection Hstep as <-].
    destruct selection as [f|s|i|o|d]; simpl in Hstep; try done.
    + injection Hstep as <-. apply Forall_app. split; [done|].
      by repeat constructor.
    + apply bind_Ok in Hstep as (d & _ & Hstep). by eapply IH.
    + by eapply IH.
Qed.

Lemma merge_step_closed (σ : store) merged selection σ' merged' :
  store_closed D σ →
  Forall (field_closed D) merged.*2 →
  field_closed D selection →
  merge_step (σ, merged) selection = Ok (σ', merged') →
  store_closed D σ' ∧
  Forall (field_closed D) merged'.*2 ∧
  ∀ l, l ∉ D → σ' !! l = σ !! l.
Proof.
  intros Hσ Hm Hsel. unfold merge_step.
  destruct (od_get merged (field_key selection)) as [stored|] eqn:Hget.
  - destruct (Field.selection_set selection) as [incoming|];
      [|by intros [= <- <-]].
    destruct (Field.selection_set stored) as [own|] eqn:Hown; [|done].
    intros [= <- <-]. rewrite (od_set_get_id _ _ _ Hget).
    assert (SelectionSet.selections own ∈ D) as Hin.
    { assert (field_closed D stored) as Hstored.
      { clear -Hm Hget. induction merged as [|[k v] merged IH]; [done|].
        simpl in *. apply Forall_cons in Hm as [??].
        case_decide; [by injection Hget as <- | auto]. }
      apply Hstored. unfold node_loc. simpl. by rewrite Hown. }
    split; [|split; [done|]].
    + intros l nodes n l' Hl Hn Hl'.
      destruct (decide (l = SelectionSet.selections own)) as [->|Hne].
      * rewrite lookup_insert_eq in Hl. injection Hl as <-.
        apply elem_of_app in Hn as [Hn|Hn];
          eapply Forall_forall in Hn; try apply store_closed_total; eauto.
      * rewrite lookup_insert_ne in Hl by done. by eapply Hσ.
    + intros l Hl. rewrite lookup_insert_ne; [done|]. by intros <-.
  - intros [= <- <-]. split; [done|]. split; [|done].
    clear Hget. induction merged as [|[k v] merged IH]; simpl in *.
    + by repeat constructor.
    + apply Forall_cons in Hm as [??].
      case_decide; simpl; constructor; auto.
Qed.

Lemma merge_loop_closed selections : ∀ (σ : store) merged σ' merged',
  store_closed D σ →
  Forall (field_closed D) merged.*2 →
  Forall (field_closed D) selections →
  merge_loop (σ, merged) selections = Ok (σ', merged') →
  store_closed D σ' ∧
  Forall (field_closed D) merged'.*2 ∧
  ∀ l, l ∉ D → σ' !! l = σ !! l.
Proof.
  unfold merge_loop.
  induction selections as [|selection selections IH];
    intros σ merged σ' merged' Hσ Hm Hsels; simpl.
  - by intros [= <- <-].
  - apply Forall_cons in Hsels as [Hsel Hsels].
    intros ([σ1 merged1] & Hstep & Hrest)%bind_Ok.
    apply merge_step_closed in Hstep as (Hσ1 & Hm1 & Hframe1); [|done..].
    apply IH in Hrest as (Hσ' & Hm' & Hframe'); [|done..].
    split; [done|]. split; [done|].
    intros l Hl. by rewrite Hframe', Hframe1.
Qed.

Lemma _merge_fields_closed (σ : store) selections σ' merged :
  store_closed D σ →
  Forall (field_closed D) selections →
  _merge_fields σ selections = Ok (σ', merged) →
  store_closed D σ' ∧
  Forall (field_closed D) merged ∧
  ∀ l, l ∉ D → σ' !! l = σ !! l.
Proof.
  intros Hσ Hsels. unfold _merge_fields.
  intros ([σ1 m] & Hloop & [= <- <-])%bind_Ok.
  eapply merge_loop_closed in Hloop; [done..|constructor|done].
Qed.

Lemma build_children_closed {A} (build : store → A → res (store * Request)) l :
  (∀ (σ : store) x σ' r,
     store_closed D σ → build σ x = Ok (σ', r) →
     store_closed D σ' ∧ ∀ l, l ∉ D → σ' !! l = σ !! l) →
  ∀ (σ : store) σ' rs,
    store_closed D σ → build_children build σ l = Ok (σ', rs) →
    store_closed D σ' ∧ ∀ l, l ∉ D → σ' !! l = σ !! l.
Proof.
  intros Hbuild. induction l as [|x l IH]; intros σ σ' rs Hσ; simpl.
  - by intros [= <- <-].
  - intros ([σ1 r] & Hx & ([σ2 rs'] & Hrest & [= <- <-])%bind_Ok)%bind_Ok.
    apply Hbuild in Hx as [Hσ1 Hf1]; [|done].
    apply IH in Hrest as [Hσ2 Hf2]; [|done].
    split; [done|]. intros l0 Hl0. by rewrite Hf2, Hf1.
Qed.

Lemma request_from_graphql_ast_closed fuel : ∀ (σ : store) ast root field σ' r,
  store_closed D σ →
  request_from_graphql_ast fuel σ ast root field = Ok (σ', r) →
  store_closed D σ' ∧ ∀ l, l ∉ D → σ' !! l = σ !! l.
Proof.
  induction fuel as [fuel IH] using lt_wf_ind.
  intros σ ast root field σ' r Hσ.
  destruct fuel as [|fuel]; [done|]. rewrite request_from_graphql_ast_S.
  intros (args & _ & ([σ1 sels] & Hsels & [= <- <-])%bind_Ok)%bind_Ok.
  destruct fuel as [|fuel]; [done|]. rewrite _graphql_selections_S in Hsels.
  apply bind_Ok in Hsels as ([ss|] & _ & H); [|by injection H as <- <-].
  apply bind_Ok in H as (collected & Hcollect & H).
  apply bind_Ok in H as ([σ2 merged] & Hmerge & H).
  apply bind_Ok in H as ([σ3 rs] & Hbuild & [= <- <-]).
  apply _add_fields_closed in Hcollect; [|done|constructor].
  apply _merge_fields_closed in Hmerge as (Hσ2 & _ & Hf2); [|done..].
  apply build_children_closed in Hbuild as [Hσ3 Hf3]; [| |done].
  - split; [done|]. intros l Hl. by rewrite Hf3, Hf2.
  - intros σa selection σb r' Hσa. unfold request_child.
    intros (fd & _ & Hsel)%bind_Ok.
    destruct fuel as [|fuel]; [done|].
    rewrite _request_from_selection_S in Hsel.
    eapply IH; [|done..]. lia.
Qed.

End frame.

(** ** The document compiler *)

Lemma request_from_graphql_document_Ok
    (get_argument_values :
       gmap string GraphQLArgument.t → list Argument.t → gmap string pyvalue →
       res (gmap string pyvalue))
    (fields : JoinType → gmap string FieldDesc.t)
    fuel (σ : store) document query_root mutation_root variables σ' dr :
  request_from_graphql_document get_argument_values fields fuel σ document
    query_root mutation_root variables = Ok (σ', dr) →
  ∃ definition_index operation schema_selection,
    operations_of (Document.definitions document) =
      [(definition_index, operation)] ∧
    find names_schema
      (σ !!! SelectionSet.selections
               (OperationDefinition.selection_set operation)) =
      Ok schema_selection ∧
    DocumentRequest.schema_query dr =
      (schema_query_of σ document definition_index operation schema_selection).2 ∧
    request_from_graphql_ast get_argument_values fields variables
      (fragments_of (Document.definitions document)) fuel
      (schema_query_of σ document definition_index operation schema_selection).1
      (NOperationDefinition operation)
      (if decide (OperationDefinition.operation operation = "mutation")
       then mutation_root else query_root) None =
      Ok (σ', DocumentRequest.query dr).
Proof.
  unfold request_from_graphql_document.
  intros ([i operation] & Hsingle & H)%bind_Ok.
  apply single_Ok in Hsingle.
  apply bind_Ok in H as (schema_selection & Hfind & H).
  destruct (schema_query_of σ document i operation schema_selection)
    as [σ1 schema_query] eqn:Hsq.
  apply bind_Ok in H as ([σ2 query] & Hquery & [= <- <-]).
  exists i, operation, schema_selection. rewrite Hsq. simpl.
  by repeat split.
Qed.

Lemma names_schema_true selection :
  names_schema selection = Ok true ↔ node_name_value selection = Ok "__schema".
Proof.
  unfold names_schema.
  destruct (node_name_value selection) as [n| |]; simpl; [|naive_solver..].
  case_bool_decide; naive_solver.
Qed.

Lemma operations_of_lookup definitions i operation :
  (i, operation) ∈ operations_of definitions →
  definitions !! i = Some (NOperationDefinition operation).
Proof.
  unfold operations_of. rewrite list_elem_of_omap.
  intros ([j n] & Hin & Hsome).
  apply elem_of_lookup_imap in Hin as (j' & n' & [= <- <-] & Hlookup).
  simpl in Hsome. destruct n; try done. by injection Hsome as <- <-.
Qed.

(** Compiling an operation yields a root Request with children. *)
Lemma request_from_graphql_ast_operation
    (get_argument_values :
       gmap string GraphQLArgument.t → list Argument.t → gmap string pyvalue →
       res (gmap string pyvalue))
    (fields : JoinType → gmap string FieldDesc.t)
    variables fragments fuel (σ : store) operation root σ' r :
  request_from_graphql_ast get_argument_values fields variables fragments fuel σ
    (NOperationDefinition operation) root None = Ok (σ', r) →
  ∃ children fuel' collected σ1 merged,
    r = mkRequest None None ∅ (Some children) [] ∧
    _collect_fields get_argument_values variables fragments fuel' σ
      (NOperationDefinition operation) = Ok collected ∧
    _merge_fields σ collected = Ok (σ1, merged) ∧
    Forall2 (child_of get_argument_values fields variables fragments
               (fields root))
      (filter (λ selection, _field_name selection ≠ "__schema") merged)
      children.
Proof.
  destruct fuel as [|fuel]; [done|]. rewrite request_from_graphql_ast_S.
  simpl. intros ([σ1 [children|]] & Hsels & [= <- <-])%bind_Ok.
  - apply _graphql_selections_children in Hsels
      as (fuel' & collected & σ2 & merged & -> & Hc & Hm & Hch).
    by exists children, fuel', collected, σ2, merged.
  - by apply _graphql_selections_leaf in Hsels as [? _].
Qed.

(** The predicate of [find] reads [name] on every direct selection up to the
    first match: an inline fragment before it raises. *)
Lemma top_level_inline_fragment_raises :
  compile_example store_inline_then_schema
    [NOperationDefinition (query_at 1)] ∅ =
    Raise (AttributeError "'InlineFragment' object has no attribute 'name'").
Proof. reflexivity. Qed.

(** Merging two [__schema] selections extends the list of the first one in
    place, and the introspection document holds that same selection. *)
Lemma schema_selections_merged_in_place :
  ∃ σ' dr,
    compile_example store_two_schema [NOperationDefinition (query_at 1)] ∅ =
      Ok (σ', dr) ∧
    DocumentRequest.schema_query dr =
      Some (Document.mk [NOperationDefinition (query_at 4)]) ∧
    σ' !! 4 = Some [NField (branch "__schema" 2)] ∧
    store_two_schema !! 2 = Some [NField (leaf "types")] ∧
    σ' !! 2 = Some [NField (leaf "types"); NField (leaf "queryType")].
Proof. eexists _, _. repeat split; reflexivity. Qed.

(** ** Claims about merging and directives *)

Lemma first_seen_bab : first_seen ["b"; "a"; "b"] = ["b"; "a"].
Proof. reflexivity. Qed.

(** C3: merging keeps, for every output key, the first selection that has
    it, at the position of that selection, so the keys of the result are
    the keys of the input in the order in which they are first seen;
    merging leaves always succeeds; compiling [{ b a b }] on a type with
    fields [a] and [b] yields the children [b], [a] in that order. *)
Theorem C3_merge_first_seen_order
    (get_argument_values :
       gmap string GraphQLArgument.t → list Argument.t → gmap string pyvalue →
       res (gmap string pyvalue))
    (fields : JoinType → gmap string FieldDesc.t)
    (variables : gmap string pyvalue)
    (fragments : gmap string FragmentDefinition.t) :
  (∀ (σ : store) selections σ' merged,
     _merge_fields σ selections = Ok (σ', merged) →
     merged = first_by_key selections ∧
     field_key <$> merged = first_seen (field_key <$> selections) ∧
     NoDup (field_key <$> merged) ∧
     ∀ k, k ∈ field_key <$> merged ↔ k ∈ field_key <$> selections) ∧
  (∀ (σ : store) selections,
     Forall (λ s, Field.selection_set s = None) selections →
     _merge_fields σ selections = Ok (σ, first_by_key selections)) ∧
  (∀ (σ : store) l root fa fb xa xb fuel,
     σ !! l = Some [NField (leaf "b"); NField (leaf "a"); NField (leaf "b")] →
     fields root !! "a" = Some fa →
     fields root !! "b" = Some fb →
     get_argument_values (FieldDesc.args fa) [] variables = Ok xa →
     get_argument_values (FieldDesc.args fb) [] variables = Ok xb →
     request_from_graphql_ast get_argument_values fields variables fragments
       (S (S (S (S (S fuel))))) σ (NOperationDefinition (query_at l)) root None =
       Ok (σ, mkRequest None None ∅
                (Some [mkRequest (Some "b") (Some fb) xb None [];
                       mkRequest (Some "a") (Some fa) xa None []]) [])).
Proof.
  split; [|split].
  - intros σ selections σ' merged Hmerge.
    split; [by eapply _merge_fields_first_by_key|].
    apply _merge_fields_keys in Hmerge. rewrite Hmerge.
    split; [done|]. split; [apply first_seen_NoDup|].
    intros k. apply first_seen_elem_of.
  - apply _merge_fields_leaves.
  - intros σ l root fa fb xa xb fuel Hl Ha Hb Hxa Hxb.
    rewrite request_from_graphql_ast_S. simpl.
    rewrite _graphql_selections_S. simpl.
    unfold _collect_fields. rewrite _add_fields_S. simpl.
    rewrite (lookup_total_correct _ _ _ Hl). simpl.
    unfold request_child, dict_get. simpl.
    rewrite Hb. simpl.
    rewrite _request_from_selection_S, request_from_graphql_ast_S. simpl.
    rewrite Hxb. simpl.
    rewrite Ha. simpl.
    rewrite _request_from_selection_S, request_from_graphql_ast_S. simpl.
    rewrite Hxa. simpl. done.
Qed.

Lemma C3_merge_first_seen_order_witness :
  ([leaf "b"; leaf "a"] = first_by_key [leaf "b"; leaf "a"; leaf "b"] ∧
   field_key <$> [leaf "b"; leaf "a"] = ["b"; "a"] ∧
   NoDup (field_key <$> [leaf "b"; leaf "a"]) ∧
   ∀ k, k ∈ field_key <$> [leaf "b"; leaf "a"] ↔
        k ∈ field_key <$> [leaf "b"; leaf "a"; leaf "b"]) ∧
  _merge_fields (∅ : store) [leaf "b"; leaf "a"; leaf "b"] =
    Ok (∅, [leaf "b"; leaf "a"]) ∧
  request_from_graphql_ast literal_argument_values example_fields ∅ ∅
    5 store_bab (NOperationDefinition (query_at 1)) "Root" None =
    Ok (store_bab,
        mkRequest None None ∅
          (Some [mkRequest (Some "b") (Some scalar) ∅ None [];
                 mkRequest (Some "a") (Some scalar) ∅ None []]) []).
Proof.
  pose proof (C3_merge_first_seen_order literal_argument_values
                example_fields ∅ ∅) as (Hmerge & Hleaves & Hexample).
  split; [|split].
  - apply (Hmerge ∅ [leaf "b"; leaf "a"; leaf "b"] ∅). reflexivity.
  - apply (Hleaves ∅ [leaf "b"; leaf "a"; leaf "b"]). by repeat constructor.
  - apply Hexample; reflexivity.
Defined.

(** Compiling an operation that selects a leaf field twice and one that
    selects it once, in the same store. *)
Lemma request_leaf_twice
    (get_argument_values :
       gmap string GraphQLArgument.t → list Argument.t → gmap string pyvalue →
       res (gmap string pyvalue))
    (fields : JoinType → gmap string FieldDesc.t)
    (variables : gmap string pyvalue)
    (fragments : gmap string FragmentDefinition.t)
    fuel (σ : store) l1 l2 a o root field :
  Field.selection_set a = None →
  σ !! l1 = Some [NField a; NField a] →
  σ !! l2 = Some [NField a] →
  request_from_graphql_ast get_argument_values fields variables fragments fuel σ
    (NOperationDefinition
       (OperationDefinition.with_selections o l1))
    root field =
  request_from_graphql_ast get_argument_values fields variables fragments fuel σ
    (NOperationDefinition
       (OperationDefinition.with_selections o l2))
    root field.
Proof.
  intros Hleaf Hl1 Hl2.
  destruct fuel as [|fuel]; [done|]. rewrite !request_from_graphql_ast_S.
  simpl. f_equal.
  destruct fuel as [|fuel]; [done|]. rewrite !_graphql_selections_S.
  simpl. unfold _collect_fields.
  destruct fuel as [|fuel]; [done|]. rewrite !_add_fields_S. simpl.
  rewrite (lookup_total_correct _ _ _ Hl1), (lookup_total_correct _ _ _ Hl2).
  simpl. unfold add_selection.
  destruct (_should_include_node get_argument_values variables (NField a))
    as [[]| |]; simpl; try done.
  unfold _merge_fields, merge_loop. simpl.
  rewrite decide_True by done. by rewrite Hleaf.
Qed.

(** C4: a leaf selection under an output key that is already present
    leaves the merged result unchanged; compiling [{ a a }] yields the same
    tree as compiling [{ a }]. *)
Theorem C4_merge_leaf_idempotent
    (get_argument_values :
       gmap string GraphQLArgument.t → list Argument.t → gmap string pyvalue →
       res (gmap string pyvalue))
    (fields : JoinType → gmap string FieldDesc.t) :
  (∀ (σ : store) pre a post,
     Field.selection_set a = None →
     field_key a ∈ field_key <$> pre →
     _merge_fields σ (pre ++ a :: post) = _merge_fields σ (pre ++ post)) ∧
  (∀ fuel (σ : store) l1 l2 a o query_root
     mutation_root variables,
     Field.selection_set a = None →
     σ !! l1 = Some [NField a; NField a] →
     σ !! l2 = Some [NField a] →
     compiled_query
       (request_from_graphql_document get_argument_values fields fuel σ
          (Document.mk
             [NOperationDefinition
                (OperationDefinition.with_selections o l1)])
          query_root mutation_root variables) =
     compiled_query
       (request_from_graphql_document get_argument_values fields fuel σ
          (Document.mk
             [NOperationDefinition
                (OperationDefinition.with_selections o l2)])
          query_root mutation_root variables)).
Proof.
  split; [apply _merge_fields_drop_leaf|].
  intros fuel σ l1 l2 a o query_root mutation_root
    variables Hleaf Hl1 Hl2.
  unfold request_from_graphql_document, fragments_of. simpl.
  rewrite (lookup_total_correct _ _ _ Hl1), (lookup_total_correct _ _ _ Hl2).
  simpl. case_bool_decide; simpl.
  - erewrite request_leaf_twice;
      [ | done | by apply lookup_insert_fresh | by apply lookup_insert_fresh ].
    match goal with
    | |- compiled_query (?m ≫= _) = compiled_query (?m ≫= _) =>
        by destruct m as [[??]| |]
    end.
  - erewrite request_leaf_twice; [ | done | done | done ].
    match goal with
    | |- compiled_query (?m ≫= _) = compiled_query (?m ≫= _) =>
        by destruct m as [[??]| |]
    end.
Qed.

Lemma C4_merge_leaf_idempotent_witness :
  _merge_fields (∅ : store) [leaf "a"; leaf "a"] = _merge_fields ∅ [leaf "a"] ∧
  compiled_query
    (request_from_graphql_document literal_argument_values example_fields 5
       {[ 1 := [NField (leaf "a"); NField (leaf "a")]; 2 := [NField (leaf "a")] ]}
       (Document.mk [NOperationDefinition (query_at 1)]) "Root" "Root" ∅) =
  compiled_query
    (request_from_graphql_document literal_argument_values example_fields 5
       {[ 1 := [NField (leaf "a"); NField (leaf "a")]; 2 := [NField (leaf "a")] ]}
       (Document.mk [NOperationDefinition (query_at 2)]) "Root" "Root" ∅).
Proof.
  split.
  - apply (proj1 (C4_merge_leaf_idempotent literal_argument_values
                    example_fields) ∅ [leaf "a"] (leaf "a") []).
    + reflexivity.
    + apply list_elem_of_In. left. reflexivity.
  - apply (proj2 (C4_merge_leaf_idempotent literal_argument_values
                    example_fields)) with (a := leaf "a"); reflexivity.
Defined.

(** What merging does when only the incoming selection is a leaf: the
    stored entry, its position and the store are unchanged. *)
Lemma merge_one_sided_incoming_leaf (σ : store) stored incoming own :
  field_key stored = field_key incoming →
  Field.selection_set stored = Some own →
  Field.selection_set incoming = None →
  _merge_fields σ [stored; incoming] = Ok (σ, [stored]).
Proof.
  intros Hkey Hs Hi. unfold _merge_fields, merge_loop. simpl.
  rewrite Hkey, decide_True by done. by rewrite Hi.
Qed.

(** What merging does when only the stored selection is a leaf. *)
Lemma merge_one_sided_stored_leaf (σ : store) stored incoming ss :
  field_key stored = field_key incoming →
  Field.selection_set stored = None →
  Field.selection_set incoming = Some ss →
  _merge_fields σ [stored; incoming] =
    Raise (AttributeError "'NoneType' object has no attribute 'selections'").
Proof.
  intros Hkey Hs Hi. unfold _merge_fields, merge_loop. simpl.
  rewrite Hkey, decide_True by done. by rewrite Hi, Hs.
Qed.

(** C6: merging [{ r r { a } }], where only the incoming selection of the
    key has a selection set, raises [AttributeError] instead of extending
    the stored entry, and so does the compilation of the document. *)
Theorem C6_one_sided_merge_raises :
  (∀ σ : store,
     _merge_fields σ [leaf "r"; branch "r" 2] =
       Raise (AttributeError "'NoneType' object has no attribute 'selections'")) ∧
  compile_example store_leaf_then_branch [NOperationDefinition (query_at 1)] ∅ =
    Raise (AttributeError "'NoneType' object has no attribute 'selections'").
Proof.
  split.
  - intros σ. by eapply merge_one_sided_stored_leaf.
  - reflexivity.
Qed.

(** C5: a selection is excluded exactly when one of its directives is a
    skip whose [if] resolves to true or an include whose [if] resolves to
    false; directives combine by conjunction; a directive without [if]
    changes nothing; [field @skip(if: $x)] yields no Request when the
    argument resolves to true and one Request otherwise. *)
Theorem C5_directive_evaluation
    (get_argument_values :
       gmap string GraphQLArgument.t → list Argument.t → gmap string pyvalue →
       res (gmap string pyvalue))
    (variables : gmap string pyvalue) :
  (∀ node b,
     _should_include_node get_argument_values variables node = Ok b →
     (b = false ↔
      ∃ directive, directive ∈ node_directives node ∧
                   directive_excludes get_argument_values variables directive)) ∧
  (∀ node (allow : Directive.t → bool),
     (∀ directive, directive ∈ node_directives node →
        directive_allows get_argument_values variables directive =
          Ok (allow directive)) →
     _should_include_node get_argument_values variables node =
       Ok (forallb allow (node_directives node))) ∧
  (∀ directive args schema,
     (Directive.name directive = "skip" ∧ schema = GraphQLSkipDirective_args) ∨
     (Directive.name directive = "include" ∧ schema = GraphQLIncludeDirective_args) →
     get_argument_values schema (Directive.arguments directive) variables = Ok args →
     args !! "if" = None →
     directive_allows get_argument_values variables directive = Ok true) ∧
  (∀ fields fragments fuel (σ : store) l root f directive args,
     σ !! l = Some [NField f] →
     Field.directives f = [directive] →
     Directive.name directive = "skip" →
     get_argument_values GraphQLSkipDirective_args
       (Directive.arguments directive) variables = Ok args →
     (args !! "if" = Some (PyBool true) →
      _graphql_selections get_argument_values fields variables fragments
        (S (S fuel)) σ (NOperationDefinition (query_at l)) root =
        Ok (σ, Some [])) ∧
     (∀ fd xs,
        args !! "if" ≠ Some (PyBool true) →
        Field.selection_set f = None →
        _field_name f ≠ "__schema" →
        fields root !! _field_name f = Some fd →
        get_argument_values (FieldDesc.args fd) (Field.arguments f) variables =
          Ok xs →
        _graphql_selections get_argument_values fields variables fragments
          (S (S (S (S fuel)))) σ (NOperationDefinition (query_at l)) root =
          Ok (σ, Some [mkRequest (Some (field_key f)) (Some fd) xs None []]))).
Proof.
  split; [|split; [|split]].
  - intros node b. apply should_include_loop_false.
  - intros node allow. apply should_include_loop_and.
  - apply directive_allows_missing_if.
  - intros fields fragments fuel σ l root f directive args Hl Hdir Hname Hargs.
    assert (_should_include_node get_argument_values variables (NField f) =
              Ok (negb (is_True (args !! "if")))) as Hinc.
    { unfold _should_include_node. simpl. rewrite Hdir. simpl.
      unfold directive_allows. rewrite Hname. simpl. rewrite Hargs. simpl.
      by destruct (is_True _). }
    split.
    + intros Hif. rewrite _graphql_selections_S. simpl.
      unfold _collect_fields. rewrite _add_fields_S. simpl.
      rewrite (lookup_total_correct _ _ _ Hl). simpl.
      unfold add_selection. rewrite Hinc, Hif. simpl. done.
    + intros fd xs Hif Hleaf Hns Hfd Hxs.
      assert (is_True (args !! "if") = false) as Hfalse.
      { destruct (is_True _) eqn:E; [|done]. by apply is_True_spec in E. }
      rewrite _graphql_selections_S. simpl.
      unfold _collect_fields. rewrite _add_fields_S. simpl.
      rewrite (lookup_total_correct _ _ _ Hl). simpl.
      unfold add_selection. rewrite Hinc, Hfalse. simpl.
      unfold _merge_fields, merge_loop. simpl.
      rewrite filter_cons_True, filter_nil by done. simpl.
      unfold request_child, dict_get. rewrite Hfd. simpl.
      rewrite _request_from_selection_S, request_from_graphql_ast_S. simpl.
      rewrite Hxs. simpl.
      rewrite _graphql_selections_S. simpl. rewrite Hleaf. simpl. done.
Qed.

Lemma C5_directive_evaluation_witness :
  (false = false ↔
   ∃ directive, directive ∈ node_directives (NField a_skip_x) ∧
                directive_excludes literal_argument_values x_true directive) ∧
  _should_include_node literal_argument_values x_true (NField a_skip_x) =
    Ok (forallb (λ _, false) (node_directives (NField a_skip_x))) ∧
  directive_allows literal_argument_values x_true (Directive.mk "skip" []) =
    Ok true ∧
  _graphql_selections literal_argument_values example_fields x_true ∅ 2
    store_skip_x (NOperationDefinition (query_at 1)) "Root" =
    Ok (store_skip_x, Some []) ∧
  _graphql_selections literal_argument_values example_fields x_false ∅ 4
    store_skip_x (NOperationDefinition (query_at 1)) "Root" =
    Ok (store_skip_x, Some [mkRequest (Some "a") (Some scalar) ∅ None []]) ∧
  _graphql_selections literal_argument_values example_fields ∅ ∅ 4
    store_skip_no_if (NOperationDefinition (query_at 1)) "Root" =
    Ok (store_skip_no_if, Some [mkRequest (Some "a") (Some scalar) ∅ None []]).
Proof.
  split; [|split; [|split; [|split; [|split]]]].
  - apply (proj1 (C5_directive_evaluation literal_argument_values x_true)
             (NField a_skip_x)).
    reflexivity.
  - apply (proj1 (proj2 (C5_directive_evaluation literal_argument_values x_true))).
    intros directive [->|[]%elem_of_nil]%elem_of_cons. reflexivity.
  - apply (proj1 (proj2 (proj2
             (C5_directive_evaluation literal_argument_values x_true))))
      with (args := ∅) (schema := GraphQLSkipDirective_args).
    + left. split; reflexivity.
    + reflexivity.
    + reflexivity.
  - eapply (proj2 (proj2 (proj2
              (C5_directive_evaluation literal_argument_values x_true))));
      reflexivity.
  - eapply (proj2 (proj2 (proj2
              (C5_directive_evaluation literal_argument_values x_false)))
              example_fields ∅ 0 store_skip_x 1 "Root" a_skip_x
              (directive_if "skip" (VariableValue "x"))
              {[ "if" := PyBool false ]});
      try reflexivity; done.
  - eapply (proj2 (proj2 (proj2
              (C5_directive_evaluation literal_argument_values ∅)))
              example_fields ∅ 0 store_skip_no_if 1 "Root"
              (Field.mk None "a" [] [Directive.mk "skip" []] None)
              (Directive.mk "skip" []) ∅);
      try reflexivity; done.
Defined.

(** ** Claims about unknown fragments, directives and fields *)

(** C8, as stated, fails: [a @skip(if: true) @foo] carries the unknown
    directive [foo], yet its evaluation returns [False] and the document
    compiles, with no Request for [a]. *)
Lemma C8_counterexample :
  "foo" ≠ "skip" ∧ "foo" ≠ "include" ∧
  Directive.mk "foo" [] ∈ node_directives (NField a_skip_then_foo) ∧
  _should_include_node literal_argument_values ∅ (NField a_skip_then_foo) =
    Ok false ∧
  compiled_query
    (compile_example store_skip_then_foo [NOperationDefinition (query_at 1)] ∅) =
    Ok (mkRequest None None ∅ (Some []) []).
Proof.
  split; [done|]. split; [done|]. split.
  - simpl. apply list_elem_of_In. right. left. reflexivity.
  - split; reflexivity.
Qed.

(** C8, amended: a spread of an undefined fragment that the directives
    include raises [KeyError] with the fragment's name, so the expansion of
    a selection set that contains one never succeeds and raises that error
    once the selections before it are expanded; a directive that is neither
    skip nor include raises [Exception "Unknown directive: ..."] when it is
    reached, that is unless an earlier directive of the selection excludes
    the selection. *)
Theorem C8_unknown_fragment_and_directive
    (get_argument_values :
       gmap string GraphQLArgument.t → list Argument.t → gmap string pyvalue →
       res (gmap string pyvalue))
    (variables : gmap string pyvalue)
    (fragments : gmap string FragmentDefinition.t) :
  (∀ recur acc s,
     _should_include_node get_argument_values variables (NFragmentSpread s) =
       Ok true →
     fragments !! FragmentSpread.name s = None →
     add_selection get_argument_values variables fragments recur acc
       (NFragmentSpread s) = Raise (KeyError (FragmentSpread.name s))) ∧
  (∀ fuel (σ : store) ast l pre s post acc,
     node_selections ast = Ok l →
     σ !!! l = pre ++ NFragmentSpread s :: post →
     _should_include_node get_argument_values variables (NFragmentSpread s) =
       Ok true →
     fragments !! FragmentSpread.name s = None →
     (∀ out, _add_fields get_argument_values variables fragments fuel σ ast acc
               ≠ Ok out) ∧
     (∀ acc',
        foldM (add_selection get_argument_values variables fragments
                 (_add_fields get_argument_values variables fragments fuel σ))
          acc pre = Ok acc' →
        _add_fields get_argument_values variables fragments (S fuel) σ ast acc =
          Raise (KeyError (FragmentSpread.name s)))) ∧
  (∀ directive,
     Directive.name directive ≠ "skip" →
     Directive.name directive ≠ "include" →
     directive_allows get_argument_values variables directive =
       Raise (Exception ("Unknown directive: " +:+ Directive.name directive))) ∧
  (∀ node pre directive post,
     node_directives node = pre ++ directive :: post →
     Directive.name directive ≠ "skip" →
     Directive.name directive ≠ "include" →
     (should_include_loop get_argument_values variables pre = Ok true →
      _should_include_node get_argument_values variables node =
        Raise (Exception ("Unknown directive: " +:+ Directive.name directive))) ∧
     (should_include_loop get_argument_values variables pre = Ok false →
      _should_include_node get_argument_values variables node = Ok false)).
Proof.
  assert (∀ recur acc s,
     _should_include_node get_argument_values variables (NFragmentSpread s) =
       Ok true →
     fragments !! FragmentSpread.name s = None →
     add_selection get_argument_values variables fragments recur acc
       (NFragmentSpread s) = Raise (KeyError (FragmentSpread.name s))) as Hspread.
  { intros recur acc s Hinc Hfrag.
    rewrite add_selection_spread by done. unfold dict_get. by rewrite Hfrag. }
  split; [done|]. split; [|split].
  - intros fuel σ ast l pre s post acc Hl Hsel Hinc Hfrag. split.
    + intros out. destruct fuel as [|fuel]; [done|].
      rewrite _add_fields_S, Hl, bind_Ok_l, Hsel.
      apply foldM_never_Ok. intros a r. by rewrite Hspread.
    + intros acc' Hpre.
      rewrite _add_fields_S, Hl, bind_Ok_l, Hsel.
      eapply foldM_raise; [done|]. by apply Hspread.
  - apply directive_allows_unknown.
  - intros node pre directive post Hdirs Hs Hi.
    unfold _should_include_node. rewrite Hdirs. split.
    + intros Hpre. by apply should_include_loop_unknown.
    + apply should_include_loop_excluded.
Qed.

Lemma C8_unknown_fragment_and_directive_witness :
  add_selection literal_argument_values ∅ ∅ (λ _ acc, Ok acc) []
    (spread "Missing") = Raise (KeyError "Missing") ∧
  ((∀ out, _add_fields literal_argument_values ∅ ∅ 1 store_missing_spread
             (NOperationDefinition (query_at 1)) [] ≠ Ok out) ∧
   _add_fields literal_argument_values ∅ ∅ 1 store_missing_spread
     (NOperationDefinition (query_at 1)) [] = Raise (KeyError "Missing")) ∧
  directive_allows literal_argument_values ∅ (Directive.mk "foo" []) =
    Raise (Exception "Unknown directive: foo") ∧
  _should_include_node literal_argument_values ∅ (NField a_foo) =
    Raise (Exception "Unknown directive: foo") ∧
  _should_include_node literal_argument_values ∅ (NField a_skip_then_foo) =
    Ok false.
Proof.
  pose proof (C8_unknown_fragment_and_directive literal_argument_values ∅ ∅)
    as (Hspread & Hadd & Hdirective & Hnode).
  split; [by apply Hspread|]. split; [|split; [|split]].
  - destruct (Hadd 0 store_missing_spread (NOperationDefinition (query_at 1))
                1 [NField (leaf "a")] (FragmentSpread.mk "Missing" []) [] [])
      as [Hnever Hraise]; try reflexivity.
    split.
    + intros out. destruct (Hadd 1 store_missing_spread
        (NOperationDefinition (query_at 1)) 1 [NField (leaf "a")]
        (FragmentSpread.mk "Missing" []) [] []) as [H _]; try reflexivity.
      apply H.
    + by apply (Hraise [leaf "a"]).
  - by apply Hdirective.
  - by apply (proj1 (Hnode (NField a_foo) [] (Directive.mk "foo" []) []
                       eq_refl ltac:(done) ltac:(done))).
  - by apply (proj2 (Hnode (NField a_skip_then_foo)
                       [directive_if "skip" (BooleanValue true)]
                       (Directive.mk "foo" []) []
                       eq_refl ltac:(done) ltac:(done))).
Defined.



(** ** Claims about fragments *)

(** A leaf field compiles to a leaf Request, whatever the store and the
    fragment table. *)
Lemma request_child_leaf
    (get_argument_values :
       gmap string GraphQLArgument.t → list Argument.t → gmap string pyvalue →
       res (gmap string pyvalue))
    (fields : JoinType → gmap string FieldDesc.t)
    (variables : gmap string pyvalue)
    (fragments : gmap string FragmentDefinition.t)
    fuel flds (σ : store) a :
  Field.selection_set a = None →
  request_child
    (_request_from_selection get_argument_values fields variables fragments
       (S (S (S fuel)))) flds σ a =
    fd ← dict_get flds (_field_name a);
    args ← get_argument_values (FieldDesc.args fd) (Field.arguments a) variables;
    Ok (σ, mkRequest (Some (field_key a)) (Some fd) args None []).
Proof.
  intros Hleaf. unfold request_child.
  destruct (dict_get flds (_field_name a)) as [fd| |]; simpl; [|done..].
  rewrite _request_from_selection_S, request_from_graphql_ast_S. simpl.
  destruct (get_argument_values _ _ _); simpl; [|done..].
  rewrite _graphql_selections_S. simpl. by rewrite Hleaf.
Qed.

Lemma build_children_leaves
    (get_argument_values :
       gmap string GraphQLArgument.t → list Argument.t → gmap string pyvalue →
       res (gmap string pyvalue))
    (fields : JoinType → gmap string FieldDesc.t)
    (variables : gmap string pyvalue)
    (fragments fragments' : gmap string FragmentDefinition.t)
    fuel flds (σ σ' : store) (leaves : list Field.t) :
  Forall (λ a, Field.selection_set a = None) leaves →
  snd <$> build_children
    (request_child
       (_request_from_selection get_argument_values fields variables fragments
          (S (S (S fuel)))) flds) σ leaves =
  snd <$> build_children
    (request_child
       (_request_from_selection get_argument_values fields variables fragments'
          (S (S (S fuel)))) flds) σ' leaves.
Proof.
  induction 1 as [|a leaves Hleaf _ IH]; simpl; [done|].
  rewrite !request_child_leaf by done.
  destruct (dict_get flds (_field_name a)) as [fd| |]; simpl; [|done..].
  destruct (get_argument_values _ _ _); simpl; [|done..].
  destruct (build_children _ σ leaves) as [[??]| |];
    destruct (build_children _ σ' leaves) as [[??]| |];
    simpl in *; congruence.
Qed.

(** Compiling [{ a ...F }] with [fragment F { a }] and compiling [{ a }],
    for a leaf field [a]. *)
Lemma request_leaf_with_spread
    (get_argument_values :
       gmap string GraphQLArgument.t → list Argument.t → gmap string pyvalue →
       res (gmap string pyvalue))
    (fields : JoinType → gmap string FieldDesc.t)
    (variables : gmap string pyvalue)
    (fragments fragments' : gmap string FragmentDefinition.t)
    fuel (σ σ' : store) l1 l2 a F d o root field :
  Field.selection_set a = None →
  σ !! l1 = Some [NField a; NFragmentSpread (FragmentSpread.mk F [])] →
  fragments !! F = Some d →
  σ !! SelectionSet.selections (FragmentDefinition.selection_set d) =
    Some [NField a] →
  σ' !! l2 = Some [NField a] →
  snd <$> request_from_graphql_ast get_argument_values fields variables
    fragments (S (S (S (S (S fuel))))) σ
    (NOperationDefinition
       (OperationDefinition.with_selections o l1))
    root field =
  snd <$> request_from_graphql_ast get_argument_values fields variables
    fragments' (S (S (S (S (S fuel))))) σ'
    (NOperationDefinition
       (OperationDefinition.with_selections o l2))
    root field.
Proof.
  intros Hleaf Hl1 HF Hd Hl2.
  rewrite !request_from_graphql_ast_S. simpl.
  destruct (match field with Some fd => _ | None => _ end); simpl; [|done..].
  rewrite !_graphql_selections_S. simpl. unfold _collect_fields.
  rewrite !_add_fields_S. simpl.
  rewrite (lookup_total_correct _ _ _ Hl1), (lookup_total_correct _ _ _ Hl2).
  simpl.
  destruct (_should_include_node get_argument_values variables (NField a))
    as [[]| |] eqn:Hinc.
  all: unfold add_selection, dict_get; simpl; rewrite ?Hinc; simpl;
    rewrite ?HF; simpl; try done.
  all: rewrite ?_add_fields_S; simpl;
    rewrite ?(lookup_total_correct _ _ _ Hd); simpl;
    unfold add_selection; rewrite ?Hinc; simpl; try done.
  unfold _merge_fields, merge_loop. simpl.
  rewrite decide_True by done. rewrite Hleaf. simpl.
  pose proof (build_children_leaves get_argument_values fields variables
                fragments fragments' fuel (fields root) σ σ'
                (filter (λ selection, _field_name selection ≠ "__schema") [a]))
    as Hbuild.
  destruct (build_children _ σ _) as [[??]| |];
    destruct (build_children _ σ' _) as [[??]| |];
    simpl in *; (lapply Hbuild; [|by apply Forall_filter_keep; repeat constructor]);
    congruence.
Qed.

(** The tree of [{ a ...F }] with [fragment F { a }], for a registered leaf
    field [a] that its directives include: one Request for [a]. *)
Lemma request_leaf_with_spread_Ok
    (get_argument_values :
       gmap string GraphQLArgument.t → list Argument.t → gmap string pyvalue →
       res (gmap string pyvalue))
    (fields : JoinType → gmap string FieldDesc.t)
    (variables : gmap string pyvalue)
    (fragments : gmap string FragmentDefinition.t)
    fuel (σ : store) l1 a F d o root fa xa :
  Field.selection_set a = None →
  _field_name a ≠ "__schema" →
  _should_include_node get_argument_values variables (NField a) = Ok true →
  σ !! l1 = Some [NField a; NFragmentSpread (FragmentSpread.mk F [])] →
  fragments !! F = Some d →
  σ !! SelectionSet.selections (FragmentDefinition.selection_set d) =
    Some [NField a] →
  fields root !! _field_name a = Some fa →
  get_argument_values (FieldDesc.args fa) (Field.arguments a) variables =
    Ok xa →
  request_from_graphql_ast get_argument_values fields variables fragments
    (S (S (S (S (S fuel))))) σ
    (NOperationDefinition (OperationDefinition.with_selections o l1))
    root None =
  Ok (σ, mkRequest None None ∅
           (Some [mkRequest (Some (field_key a)) (Some fa) xa None []]) []).
Proof.
  intros Hleaf Hname Hinc Hl1 HF Hd Hfa Hxa.
  rewrite request_from_graphql_ast_S. simpl.
  rewrite _graphql_selections_S. simpl. unfold _collect_fields.
  rewrite _add_fields_S. simpl.
  rewrite (lookup_total_correct _ _ _ Hl1). simpl.
  unfold add_selection at 2. rewrite Hinc. simpl.
  unfold add_selection, dict_get. simpl. rewrite HF. simpl.
  rewrite _add_fields_S. simpl.
  rewrite (lookup_total_correct _ _ _ Hd). simpl.
  unfold add_selection. rewrite Hinc. simpl.
  unfold _merge_fields, merge_loop. simpl.
  rewrite decide_True by done. rewrite Hleaf. simpl.
  rewrite filter_cons, decide_True by done. rewrite filter_nil. simpl.
  rewrite request_child_leaf by done.
  unfold dict_get. rewrite Hfa. simpl. by rewrite Hxa.
Qed.

(** C7: the fields collected from a selection set are those of the
    expansion that splices every included spread and inline fragment in
    place, recursively; neither the type condition of an inline fragment nor
    that of a fragment definition is read; and [{ a ...F }] with
    [fragment F { a }] compiles to the same Request tree as [{ a }], which
    for a registered leaf field [a] that its directives include is the
    root with a single Request for [a]. *)
Theorem C7_fragment_transparency
    (get_argument_values :
       gmap string GraphQLArgument.t → list Argument.t → gmap string pyvalue →
       res (gmap string pyvalue))
    (fields : JoinType → gmap string FieldDesc.t)
    (variables : gmap string pyvalue) :
  (∀ fragments (σ : store) ast l,
     node_selections ast = Ok l →
     (∀ fuel fs,
        _collect_fields get_argument_values variables fragments fuel σ ast =
          Ok fs →
        expands get_argument_values variables fragments σ (σ !!! l) fs) ∧
     (∀ fs,
        expands get_argument_values variables fragments σ (σ !!! l) fs →
        ∃ n, ∀ m, n ≤ m →
          _collect_fields get_argument_values variables fragments m σ ast =
            Ok fs)) ∧
  (∀ fragments fuel (σ : store) acc tc tc' directives ss rest,
     foldM (add_selection get_argument_values variables fragments
              (_add_fields get_argument_values variables fragments fuel σ))
       acc (NInlineFragment (InlineFragment.mk tc directives ss) :: rest) =
     foldM (add_selection get_argument_values variables fragments
              (_add_fields get_argument_values variables fragments fuel σ))
       acc (NInlineFragment (InlineFragment.mk tc' directives ss) :: rest)) ∧
  (∀ fragments fuel (σ : store) acc name name' tc tc' directives directives' ss,
     _add_fields get_argument_values variables fragments fuel σ
       (NFragmentDefinition (FragmentDefinition.mk name tc directives ss)) acc =
     _add_fields get_argument_values variables fragments fuel σ
       (NFragmentDefinition (FragmentDefinition.mk name' tc' directives' ss)) acc) ∧
  (∀ fuel (σ : store) l1 l2 lF a F tc o query_root
     mutation_root,
     Field.selection_set a = None →
     σ !! l1 = Some [NField a; NFragmentSpread (FragmentSpread.mk F [])] →
     σ !! lF = Some [NField a] →
     σ !! l2 = Some [NField a] →
     compiled_query
       (request_from_graphql_document get_argument_values fields
          (S (S (S (S (S fuel))))) σ
          (Document.mk
             [NOperationDefinition
                (OperationDefinition.with_selections o l1);
              NFragmentDefinition
                (FragmentDefinition.mk F tc [] (SelectionSet.mk lF))])
          query_root mutation_root variables) =
     compiled_query
       (request_from_graphql_document get_argument_values fields
          (S (S (S (S (S fuel))))) σ
          (Document.mk
             [NOperationDefinition
                (OperationDefinition.with_selections o l2)])
          query_root mutation_root variables)) ∧
  (∀ fuel (σ : store) l1 lF a F tc o query_root mutation_root fa xa,
     Field.selection_set a = None →
     _field_name a ≠ "__schema" →
     _should_include_node get_argument_values variables (NField a) = Ok true →
     σ !! l1 = Some [NField a; NFragmentSpread (FragmentSpread.mk F [])] →
     σ !! lF = Some [NField a] →
     fields (if decide (OperationDefinition.operation o = "mutation")
             then mutation_root else query_root) !! _field_name a = Some fa →
     get_argument_values (FieldDesc.args fa) (Field.arguments a) variables =
       Ok xa →
     compiled_query
       (request_from_graphql_document get_argument_values fields
          (S (S (S (S (S fuel))))) σ
          (Document.mk
             [NOperationDefinition
                (OperationDefinition.with_selections o l1);
              NFragmentDefinition
                (FragmentDefinition.mk F tc [] (SelectionSet.mk lF))])
          query_root mutation_root variables) =
     Ok (mkRequest None None ∅
           (Some [mkRequest (Some (field_key a)) (Some fa) xa None []]) [])).
Proof.
  split; [|split; [|split; [|split]]].
  - intros fragments σ ast l Hl. split.
    + intros fuel fs Hfs. unfold _collect_fields in Hfs.
      apply _add_fields_expands in Hfs as (l' & fs' & Hl' & Hexp & ->).
      rewrite Hl in Hl'. by injection Hl' as <-.
    + intros fs Hexp. by eapply expands_collect_fields.
  - intros fragments fuel σ acc tc tc' directives ss rest. simpl.
    unfold add_selection, _should_include_node. simpl.
    destruct (should_include_loop _ _ directives) as [[]| |]; simpl; try done.
    by destruct fuel.
  - intros fragments fuel σ acc name name' tc tc' directives directives' ss.
    by destruct fuel.
  - intros fuel σ l1 l2 lF a F tc o query_root
      mutation_root Hleaf Hl1 HlF Hl2.
    unfold request_from_graphql_document, fragments_of, compiled_query. simpl.
    rewrite (lookup_total_correct _ _ _ Hl1), (lookup_total_correct _ _ _ Hl2).
    set (root := if decide (OperationDefinition.operation o = "mutation") is left _
                 then mutation_root else query_root).
    assert (∀ (σa σb : store) sqa sqb,
      σa !! l1 = Some [NField a; NFragmentSpread (FragmentSpread.mk F [])] →
      σa !! lF = Some [NField a] →
      σb !! l2 = Some [NField a] →
      (request_from_graphql_ast get_argument_values fields variables
         (<[F := FragmentDefinition.mk F tc [] (SelectionSet.mk lF)]> ∅)
         (S (S (S (S (S fuel))))) σa
         (NOperationDefinition
            (OperationDefinition.with_selections o l1))
         root None
       ≫= (λ '(σ2, query), Ok (σ2, DocumentRequest.mk query sqa)))
      ≫= (λ p, Ok (DocumentRequest.query p.2)) =
      (request_from_graphql_ast get_argument_values fields variables ∅
         (S (S (S (S (S fuel))))) σb
         (NOperationDefinition
            (OperationDefinition.with_selections o l2))
         root None
       ≫= (λ '(σ2, query), Ok (σ2, DocumentRequest.mk query sqb)))
      ≫= (λ p, Ok (DocumentRequest.query p.2))) as Hmain.
    { intros σa σb sqa sqb Ha1 HaF Hb2.
      pose proof (request_leaf_with_spread get_argument_values fields variables
        (<[F := FragmentDefinition.mk F tc [] (SelectionSet.mk lF)]> ∅) ∅
        fuel σa σb l1 l2 a F
        (FragmentDefinition.mk F tc [] (SelectionSet.mk lF))
        o root None Hleaf Ha1
        (lookup_insert_eq _ _ _) HaF Hb2) as Heq.
      destruct (request_from_graphql_ast _ _ _ _ _ σa _ _ _) as [[??]| |];
        destruct (request_from_graphql_ast _ _ _ _ _ σb _ _ _) as [[??]| |];
        simpl in *; congruence. }
    simpl. unfold names_schema. simpl.
    repeat case_bool_decide; simpl; apply Hmain;
      auto using lookup_insert_fresh.
  - intros fuel σ l1 lF a F tc o query_root mutation_root fa xa
      Hleaf Hname Hinc Hl1 HlF Hfa Hxa.
    unfold request_from_graphql_document, fragments_of, compiled_query. simpl.
    rewrite (lookup_total_correct _ _ _ Hl1).
    assert (∀ (σa : store) sqa,
      σa !! l1 = Some [NField a; NFragmentSpread (FragmentSpread.mk F [])] →
      σa !! lF = Some [NField a] →
      (request_from_graphql_ast get_argument_values fields variables
         (<[F := FragmentDefinition.mk F tc [] (SelectionSet.mk lF)]> ∅)
         (S (S (S (S (S fuel))))) σa
         (NOperationDefinition
            (OperationDefinition.with_selections o l1))
         (if decide (OperationDefinition.operation o = "mutation")
          then mutation_root else query_root) None
       ≫= (λ '(σ2, query), Ok (σ2, DocumentRequest.mk query sqa)))
      ≫= (λ p, Ok (DocumentRequest.query p.2)) =
      Ok (mkRequest None None ∅
            (Some [mkRequest (Some (field_key a)) (Some fa) xa None []]) []))
      as Hmain.
    { intros σa sqa Ha1 HaF.
      by rewrite (request_leaf_with_spread_Ok get_argument_values fields
                    variables _ fuel σa l1 a F
                    (FragmentDefinition.mk F tc [] (SelectionSet.mk lF))
                    o _ fa xa Hleaf Hname Hinc Ha1
                    (lookup_insert_eq _ _ _) HaF Hfa Hxa). }
    simpl. unfold names_schema. simpl.
    repeat case_bool_decide; simpl; apply Hmain;
      auto using lookup_insert_fresh.
Qed.

Lemma C7_fragment_transparency_witness :
  expands literal_argument_values ∅ fragments_F store_a_spread
    (store_a_spread !!! 1) [leaf "a"; leaf "a"] ∧
  (∃ n, ∀ m, n ≤ m →
     _collect_fields literal_argument_values ∅ fragments_F m store_a_spread
       (NOperationDefinition (query_at 1)) = Ok [leaf "a"; leaf "a"]) ∧
  compiled_query
    (request_from_graphql_document literal_argument_values example_fields 5
       store_a_spread
       (Document.mk [NOperationDefinition (query_at 1); fragment_at "F" 2])
       "Root" "Root" ∅) =
  compiled_query
    (request_from_graphql_document literal_argument_values example_fields 5
       store_a_spread (Document.mk [NOperationDefinition (query_at 3)])
       "Root" "Root" ∅) ∧
  compiled_query
    (request_from_graphql_document literal_argument_values example_fields 5
       store_a_spread
       (Document.mk [NOperationDefinition (query_at 1); fragment_at "F" 2])
       "Root" "Root" ∅) =
  Ok (mkRequest None None ∅
        (Some [mkRequest (Some "a") (Some scalar) ∅ None []]) []).
Proof.
  pose proof (C7_fragment_transparency literal_argument_values example_fields ∅)
    as (Hrefines & _ & _ & Hexample & Htree).
  destruct (Hrefines fragments_F store_a_spread
              (NOperationDefinition (query_at 1)) 1 eq_refl) as [Hsound Hcomplete].
  assert (expands literal_argument_values ∅ fragments_F store_a_spread
            (store_a_spread !!! 1) [leaf "a"; leaf "a"]) as Hexp.
  { apply (Hsound 2). reflexivity. }
  split; [exact Hexp|]. split; [exact (Hcomplete _ Hexp)|]. split.
  - apply Hexample with (lF := 2) (a := leaf "a"); reflexivity.
  - apply (Htree 0 store_a_spread 1 2 (leaf "a") "F" "Root" (query_at 0)
             "Root" "Root" scalar ∅); try reflexivity. done.
Defined.

(** ** Claims about the introspection selection *)

(** C10: at every node the children are built from the merged selections
    that are not named [__schema], so such a selection is dropped without a
    lookup at any depth; the introspection document exists exactly when a
    direct selection of the operation is named [__schema]; in
    [{ r { __schema { types } a } }] and when [__schema] comes from a
    fragment the selection is dropped and there is no introspection
    document. *)
Theorem C10_schema_dropped_at_every_depth
    (get_argument_values :
       gmap string GraphQLArgument.t → list Argument.t → gmap string pyvalue →
       res (gmap string pyvalue))
    (fields : JoinType → gmap string FieldDesc.t) :
  (∀ variables fragments fuel (σ : store) ast root σ' children,
     _graphql_selections get_argument_values fields variables fragments
       fuel σ ast root = Ok (σ', Some children) →
     ∃ fuel' collected σ1 merged,
       fuel = S fuel' ∧
       _collect_fields get_argument_values variables fragments fuel' σ ast =
         Ok collected ∧
       _merge_fields σ collected = Ok (σ1, merged) ∧
       Forall2 (child_of get_argument_values fields variables fragments
                  (fields root))
         (filter (λ selection, _field_name selection ≠ "__schema") merged)
         children) ∧
  (∀ fuel (σ : store) document query_root mutation_root variables σ' dr,
     request_from_graphql_document get_argument_values fields fuel σ document
       query_root mutation_root variables = Ok (σ', dr) →
     ∃ definition_index operation,
       operations_of (Document.definitions document) =
         [(definition_index, operation)] ∧
       (is_Some (DocumentRequest.schema_query dr) ↔
        ∃ selection,
          selection ∈ σ !!! SelectionSet.selections
                              (OperationDefinition.selection_set operation) ∧
          node_name_value selection = Ok "__schema")) ∧
  compile_example store_nested_schema [NOperationDefinition (query_at 1)] ∅ =
    Ok (store_nested_schema,
        DocumentRequest.mk
          (mkRequest None None ∅
             (Some [mkRequest (Some "r") (Some to_root) ∅
                      (Some [mkRequest (Some "a") (Some scalar) ∅ None []])
                      []]) [])
          None) ∧
  compile_example store_schema_in_fragment
    [NOperationDefinition (query_at 1); fragment_at "F" 2] ∅ =
    Ok (store_schema_in_fragment,
        DocumentRequest.mk
          (mkRequest None None ∅
             (Some [mkRequest (Some "a") (Some scalar) ∅ None []]) [])
          None).
Proof.
  split; [|split; [|split; reflexivity]].
  - intros *. apply _graphql_selections_children.
  - intros fuel σ document query_root mutation_root variables σ' dr Hdoc.
    apply request_from_graphql_document_Ok in Hdoc
      as (i & operation & sel & Hops & Hfind & Hsq & _).
    exists i, operation. split; [done|]. rewrite Hsq.
    destruct sel as [selection|]; simpl.
    + apply find_Some in Hfind as (pre & post & Hl & _ & Hname).
      split; [|by eauto]. intros _. exists selection. split.
      * rewrite Hl. apply elem_of_app. right. left.
      * by apply names_schema_true.
    + apply find_None in Hfind. split; [by intros []|].
      intros (selection & Hin & Hname).
      rewrite Forall_forall in Hfind. apply Hfind in Hin.
      apply names_schema_true in Hname. congruence.
Qed.

Lemma C10_schema_dropped_at_every_depth_witness :
  (∃ fuel' collected σ1 merged,
     4 = S fuel' ∧
     _collect_fields literal_argument_values ∅ ∅ fuel' store_nested_schema
       (NField (branch "r" 2)) = Ok collected ∧
     _merge_fields store_nested_schema collected = Ok (σ1, merged) ∧
     Forall2 (child_of literal_argument_values example_fields ∅ ∅
                (example_fields "Root"))
       (filter (λ selection, _field_name selection ≠ "__schema") merged)
       [mkRequest (Some "a") (Some scalar) ∅ None []]) ∧
  ∃ definition_index operation,
    operations_of [NOperationDefinition (query_at 1)] =
      [(definition_index, operation)] ∧
    (is_Some (None : option Document.t) ↔
     ∃ selection,
       selection ∈ store_nested_schema !!!
                     SelectionSet.selections
                       (OperationDefinition.selection_set operation) ∧
       node_name_value selection = Ok "__schema").
Proof.
  pose proof (C10_schema_dropped_at_every_depth literal_argument_values
                example_fields) as (Hnode & Hdoc & _).
  split.
  - apply (Hnode ∅ ∅ 4 store_nested_schema (NField (branch "r" 2)) "Root"
             store_nested_schema).
    reflexivity.
  - apply (Hdoc 16 store_nested_schema
             (Document.mk [NOperationDefinition (query_at 1)]) "Root" "Root" ∅
             store_nested_schema
             (DocumentRequest.mk
                (mkRequest None None ∅
                   (Some [mkRequest (Some "r") (Some to_root) ∅
                            (Some [mkRequest (Some "a") (Some scalar) ∅ None []])
                            []]) [])
                None)).
    reflexivity.
Defined.

(** C1, as stated, fails: in [{ __schema { types } a @skip(if: true) }] and
    in [{ x: __schema { types } x: a }] the operation selects [__schema]
    and one other field, compilation succeeds, and the main tree has no
    child for the other selection. *)
Lemma C1_counterexample :
  compiled_query
    (compile_example store_schema_skipped_a
       [NOperationDefinition (query_at 1)] ∅) =
    Ok (mkRequest None None ∅ (Some []) []) ∧
  compiled_query
    (compile_example store_schema_alias_clash
       [NOperationDefinition (query_at 1)] ∅) =
    Ok (mkRequest None None ∅ (Some []) []).
Proof. split; reflexivity. Qed.

Lemma schema_query_of_closed (σ : store) document i operation selection :
  store_closed (dom σ) σ →
  selection ∈ σ !!! SelectionSet.selections
                      (OperationDefinition.selection_set operation) →
  store_closed (dom σ)
    (schema_query_of σ document i operation (Some selection)).1.
Proof.
  intros Hσ Hin. simpl. intros l nodes n l' Hl Hn Hl'.
  destruct (decide (l = fresh (dom σ))) as [->|Hne].
  - rewrite lookup_insert_eq in Hl. injection Hl as <-.
    apply list_elem_of_singleton in Hn as ->.
    pose proof (store_closed_total _ _
      (SelectionSet.selections (OperationDefinition.selection_set operation))
      Hσ) as Hall.
    rewrite Forall_forall in Hall. by eapply Hall.
  - rewrite lookup_insert_ne in Hl by done. by eapply Hσ.
Qed.

(** C1, amended: whenever compilation succeeds, the document has exactly one
    operation; if no direct selection of the operation is named [__schema]
    there is no introspection document, and otherwise the introspection
    document is the input with the operation replaced, at its position, by
    a copy whose selection set is a new list holding only the first direct
    selection named [__schema] (all other definitions are the input's own),
    a list that compilation leaves untouched in a well-formed store; the
    children of the main tree are the Requests built, in order, from the
    merged expansion of the operation's selections without those named
    [__schema].  [{ __schema { ... } a }] against a root with field [a]
    compiles to a main tree with the single child [a] and an introspection
    document whose only selection is [__schema]. *)
Theorem C1_introspection_split
    (get_argument_values :
       gmap string GraphQLArgument.t → list Argument.t → gmap string pyvalue →
       res (gmap string pyvalue))
    (fields : JoinType → gmap string FieldDesc.t) :
  (∀ fuel (σ : store) document query_root mutation_root variables σ' dr,
     request_from_graphql_document get_argument_values fields fuel σ document
       query_root mutation_root variables = Ok (σ', dr) →
     ∃ definition_index operation schema_selection (σ0 : store) children,
       operations_of (Document.definitions document) =
         [(definition_index, operation)] ∧
       Document.definitions document !! definition_index =
         Some (NOperationDefinition operation) ∧
       match schema_selection with
       | None =>
           Forall (λ selection, names_schema selection = Ok false)
             (σ !!! SelectionSet.selections
                      (OperationDefinition.selection_set operation)) ∧
           σ0 = σ ∧
           DocumentRequest.schema_query dr = None
       | Some selection =>
           (∃ pre post,
              σ !!! SelectionSet.selections
                      (OperationDefinition.selection_set operation) =
                pre ++ selection :: post ∧
              Forall (λ selection, names_schema selection = Ok false) pre) ∧
           node_name_value selection = Ok "__schema" ∧
           ∃ l,
             σ !! l = None ∧
             σ0 = <[l := [selection]]> σ ∧
             DocumentRequest.schema_query dr =
               Some (Document.mk
                       (<[definition_index :=
                            NOperationDefinition
                              (OperationDefinition.with_selections operation l)]>
                          (Document.definitions document))) ∧
             (store_closed (dom σ) σ → σ' !! l = Some [selection])
       end ∧
       DocumentRequest.query dr = mkRequest None None ∅ (Some children) [] ∧
       ∃ fuel' collected σ1 merged,
         _collect_fields get_argument_values variables
           (fragments_of (Document.definitions document)) fuel' σ0
           (NOperationDefinition operation) = Ok collected ∧
         _merge_fields σ0 collected = Ok (σ1, merged) ∧
         Forall2
           (child_of get_argument_values fields variables
              (fragments_of (Document.definitions document))
              (fields (if decide (OperationDefinition.operation operation =
                                    "mutation")
                       then mutation_root else query_root)))
           (filter (λ selection, _field_name selection ≠ "__schema") merged)
           children) ∧
  (∀ fuel (σ : store) l l2 query_root mutation_root variables fa xa,
     σ !! l = Some [NField (branch "__schema" l2); NField (leaf "a")] →
     fields query_root !! "a" = Some fa →
     get_argument_values (FieldDesc.args fa) [] variables = Ok xa →
     request_from_graphql_document get_argument_values fields
       (S (S (S (S (S fuel))))) σ
       (Document.mk [NOperationDefinition (query_at l)])
       query_root mutation_root variables =
       Ok (<[fresh (dom σ) := [NField (branch "__schema" l2)]]> σ,
           DocumentRequest.mk
             (mkRequest None None ∅
                (Some [mkRequest (Some "a") (Some fa) xa None []]) [])
             (Some (Document.mk
                      [NOperationDefinition (query_at (fresh (dom σ)))])))).
Proof.
  split.
  - intros fuel σ document query_root mutation_root variables σ' dr Hdoc.
    apply request_from_graphql_document_Ok in Hdoc
      as (i & operation & sel & Hops & Hfind & Hsq & Hquery).
    pose proof Hquery as Hq.
    apply request_from_graphql_ast_operation in Hq
      as (children & fuel' & collected & σ1 & merged & Hr & Hc & Hm & Hch).
    exists i, operation, sel,
      (schema_query_of σ document i operation sel).1, children.
    split; [done|]. split.
    { apply operations_of_lookup. rewrite Hops. left. }
    split; [|split; [done|by exists fuel', collected, σ1, merged]].
    destruct sel as [selection|].
    + apply find_Some in Hfind as (pre & post & Hl & Hpre & Hname).
      split; [by exists pre, post|].
      split; [by apply names_schema_true|].
      exists (fresh (dom σ)). split.
      { apply not_elem_of_dom. apply is_fresh. }
      split; [done|]. split; [done|].
      intros Hσ.
      eapply request_from_graphql_ast_closed in Hquery as [_ Hframe].
      * rewrite Hframe by apply is_fresh. simpl. apply lookup_insert_eq.
      * apply schema_query_of_closed; [done|].
        rewrite Hl. apply elem_of_app. right. left.
    + apply find_None in Hfind. by repeat split.
  - intros fuel σ l l2 query_root mutation_root variables fa xa Hl Ha Hxa.
    unfold request_from_graphql_document, fragments_of. simpl.
    rewrite (lookup_total_correct _ _ _ Hl). simpl.
    rewrite request_from_graphql_ast_S. simpl.
    rewrite _graphql_selections_S. simpl.
    unfold _collect_fields. rewrite _add_fields_S. simpl.
    rewrite (lookup_total_correct _ _ _ (lookup_insert_fresh _ _ _ _ Hl)).
    simpl. unfold request_child, dict_get. simpl. rewrite Ha. simpl.
    rewrite _request_from_selection_S, request_from_graphql_ast_S. simpl.
    rewrite Hxa. simpl. done.
Qed.

Lemma C1_introspection_split_witness :
  ∃ σ' dr,
    request_from_graphql_document literal_argument_values example_fields 5
      store_schema_a (Document.mk [NOperationDefinition (query_at 1)])
      "Root" "Root" ∅ = Ok (σ', dr) ∧
    ∃ definition_index operation schema_selection (σ0 : store) children,
      operations_of [NOperationDefinition (query_at 1)] =
        [(definition_index, operation)] ∧
      [NOperationDefinition (query_at 1)] !! definition_index =
        Some (NOperationDefinition operation) ∧
      match schema_selection with
      | None =>
          Forall (λ selection, names_schema selection = Ok false)
            (store_schema_a !!! SelectionSet.selections
                                  (OperationDefinition.selection_set operation)) ∧
          σ0 = store_schema_a ∧
          DocumentRequest.schema_query dr = None
      | Some selection =>
          (∃ pre post,
             store_schema_a !!! SelectionSet.selections
                                  (OperationDefinition.selection_set operation) =
               pre ++ selection :: post ∧
             Forall (λ selection, names_schema selection = Ok false) pre) ∧
          node_name_value selection = Ok "__schema" ∧
          ∃ l,
            store_schema_a !! l = None ∧
            σ0 = <[l := [selection]]> store_schema_a ∧
            DocumentRequest.schema_query dr =
              Some (Document.mk
                      (<[definition_index :=
                           NOperationDefinition
                             (OperationDefinition.with_selections operation l)]>
                         [NOperationDefinition (query_at 1)])) ∧
            (store_closed (dom store_schema_a) store_schema_a →
             σ' !! l = Some [selection])
      end ∧
      DocumentRequest.query dr = mkRequest None None ∅ (Some children) [] ∧
      ∃ fuel' collected σ1 merged,
        _collect_fields literal_argument_values ∅
          (fragments_of [NOperationDefinition (query_at 1)]) fuel' σ0
          (NOperationDefinition operation) = Ok collected ∧
        _merge_fields σ0 collected = Ok (σ1, merged) ∧
        Forall2
          (child_of literal_argument_values example_fields ∅
             (fragments_of [NOperationDefinition (query_at 1)])
             (example_fields
                (if decide (OperationDefinition.operation operation = "mutation")
                 then "Root" else "Root")))
          (filter (λ selection, _field_name selection ≠ "__schema") merged)
          children.
Proof.
  pose proof (C1_introspection_split literal_argument_values example_fields)
    as [Hsplit Hexample].
  pose proof (Hexample 0 store_schema_a 1 2 "Root" "Root" ∅ scalar ∅
                eq_refl eq_refl eq_refl) as Hrun.
  eexists _, _. split; [exact Hrun|].
  exact (Hsplit 5 store_schema_a
           (Document.mk [NOperationDefinition (query_at 1)]) "Root" "Root" ∅
           _ _ Hrun).
Defined.

(** ** Claims about the outcome of compilation *)




(** ** Further properties of the expansion *)

Lemma fmap_res_bind {A B C} (m : res A) (f : A → res B) (g : B → C) :
  g <$> (m ≫= f) = m ≫= λ a, g <$> f a.
Proof. by destruct m. Qed.

Lemma bind_fmap_res {A B C} (m : res A) (g : A → B) (f : B → res C) :
  (g <$> m) ≫= f = m ≫= λ a, f (g a).
Proof. by destruct m. Qed.

Lemma bind_res_ext {A B} (m : res A) (f g : A → res B) :
  (∀ a, f a = g a) → m ≫= f = m ≫= g.
Proof. intros H. destruct m; simpl; auto. Qed.

(** A loop whose body only appends to the accumulator, by the same amount
    whatever the accumulator holds. *)
Lemma foldM_appends {A B} (f : list B → A → res (list B)) l :
  (∀ acc x, f acc x = (acc ++.) <$> f [] x) →
  ∀ acc, foldM f acc l = (acc ++.) <$> foldM f [] l.
Proof.
  intros Hf. induction l as [|x l IH]; intros acc; simpl.
  - by rewrite app_nil_r.
  - rewrite (Hf acc x), bind_fmap_res, fmap_res_bind.
    apply bind_res_ext. intros d.
    rewrite (IH (acc ++ d)), (IH d).
    destruct (foldM f [] l); simpl; [|done..].
    by rewrite app_assoc.
Qed.

Section expansion.
Variable get_argument_values :
  gmap string GraphQLArgument.t → list Argument.t → gmap string pyvalue →
  res (gmap string pyvalue).
Variable variables : gmap string pyvalue.
Variable fragments : gmap string FragmentDefinition.t.

Local Abbreviation _should_include_node :=
  (_should_include_node get_argument_values variables).
Local Abbreviation add_selection :=
  (add_selection get_argument_values variables fragments).
Local Abbreviation _add_fields :=
  (_add_fields get_argument_values variables fragments).
Local Abbreviation _collect_fields :=
  (_collect_fields get_argument_values variables fragments).
Local Abbreviation expands :=
  (expands get_argument_values variables fragments).

Lemma add_selection_appends recur :
  (∀ ast acc, recur ast acc = (acc ++.) <$> recur ast []) →
  ∀ acc selection,
    add_selection recur acc selection =
      (acc ++.) <$> add_selection recur [] selection.
Proof.
  intros Hrecur acc selection. unfold add_selection.
  destruct (_should_include_node selection) as [[]| |]; simpl; try done.
  - destruct selection as [f|s|i|o|d]; simpl; try done.
    destruct (dict_get fragments (FragmentSpread.name s)); simpl; try done.
  - by rewrite app_nil_r.
Qed.

Lemma _add_fields_appends fuel : ∀ (σ : store) ast acc,
  _add_fields fuel σ ast acc = (acc ++.) <$> _add_fields fuel σ ast [].
Proof.
  induction fuel as [|fuel IH]; intros σ ast acc; [done|].
  rewrite !_add_fields_S.
  destruct (node_selections ast) as [l| |]; simpl; [|done..].
  apply foldM_appends. apply add_selection_appends. intros ast' acc'. apply IH.
Qed.

(** X1: what [_add_fields] adds does not depend on what was collected
    before: collecting into a list appends what collecting from scratch
    yields, with the same failure if any, and the fields of a concatenated
    selection list are those of its two parts, in order. *)
Theorem X1_collect_appends :
  (∀ fuel (σ : store) ast acc,
     _add_fields fuel σ ast acc = (acc ++.) <$> _collect_fields fuel σ ast) ∧
  (∀ fuel (σ : store) selections1 selections2,
     foldM (add_selection (_add_fields fuel σ)) [] (selections1 ++ selections2) =
       fs1 ← foldM (add_selection (_add_fields fuel σ)) [] selections1;
       fs2 ← foldM (add_selection (_add_fields fuel σ)) [] selections2;
       Ok (fs1 ++ fs2)).
Proof.
  split.
  - intros. apply _add_fields_appends.
  - intros fuel σ selections1 selections2. rewrite foldM_app.
    apply bind_res_ext. intros fs1.
    rewrite foldM_appends.
    + by destruct (foldM _ [] selections2).
    + apply add_selection_appends. intros. apply _add_fields_appends.
Qed.

Lemma expands_included (σ : store) selections fs :
  expands σ selections fs →
  (∀ n, n ∈ selections → ∃ l, n ∈ σ !!! l) →
  Forall (λ f, _should_include_node (NField f) = Ok true ∧
               ∃ l, NField f ∈ σ !!! l) fs.
Proof.
  induction 1 as [|selection rest fs Hinc _ IH
                  |f rest fs Hinc _ IH
                  |s d rest fs1 fs2 Hinc Hd _ IH1 _ IH2
                  |i rest fs1 fs2 Hinc _ IH1 _ IH2]; intros Hin.
  - constructor.
  - apply IH. intros n Hn. apply Hin. by right.
  - constructor.
    + split; [done|]. apply Hin. left.
    + apply IH. intros n Hn. apply Hin. by right.
  - apply Forall_app. split.
    + apply IH1. eauto.
    + apply IH2. intros n Hn. apply Hin. by right.
  - apply Forall_app. split.
    + apply IH1. eauto.
    + apply IH2. intros n Hn. apply Hin. by right.
Qed.

(** X2: every collected field passed its own directives and is a node of
    some selection list of the store: the expansion invents no selection
    and lets none through that its directives exclude. *)
Theorem X2_collected_fields_included fuel (σ : store) ast fs :
  _collect_fields fuel σ ast = Ok fs →
  Forall (λ f, _should_include_node (NField f) = Ok true ∧
               ∃ l, NField f ∈ σ !!! l) fs.
Proof.
  unfold _collect_fields. intros Hfs.
  apply _add_fields_expands in Hfs as (l & fs' & _ & Hexp & ->).
  simpl. eapply expands_included; eauto.
Qed.

(** X3: a fragment whose first selection is an included spread of the
    fragment itself is expanded without end: whatever the bound on the
    depth of the call stack, expanding the fragment, or any selection set
    that starts with a spread of it, exceeds the bound. *)
Theorem X3_self_spread_unbounded (σ : store) d s rest :
  fragments !! FragmentSpread.name s = Some d →
  σ !!! SelectionSet.selections (FragmentDefinition.selection_set d) =
    NFragmentSpread s :: rest →
  _should_include_node (NFragmentSpread s) = Ok true →
  (∀ fuel acc, _add_fields fuel σ (NFragmentDefinition d) acc = OutOfFuel) ∧
  (∀ fuel acc ast l rest',
     node_selections ast = Ok l →
     σ !!! l = NFragmentSpread s :: rest' →
     _add_fields fuel σ ast acc = OutOfFuel).
Proof.
  intros Hd Hl Hinc.
  assert (∀ fuel acc, _add_fields fuel σ (NFragmentDefinition d) acc = OutOfFuel)
    as Hloop.
  { induction fuel as [|fuel IH]; intros acc; [done|].
    rewrite _add_fields_S. simpl. rewrite Hl. simpl.
    rewrite add_selection_spread by done.
    unfold dict_get. rewrite Hd. simpl. by rewrite IH. }
  split; [done|].
  intros [|fuel] acc ast l rest' Hast Hl'; [done|].
  rewrite _add_fields_S, Hast. simpl. rewrite Hl'. simpl.
  rewrite add_selection_spread by done.
  unfold dict_get. rewrite Hd. simpl. by rewrite Hloop.
Qed.

End expansion.

Lemma X2_collected_fields_included_witness :
  Forall (λ f, _should_include_node literal_argument_values ∅ (NField f) = Ok true ∧
               ∃ l, NField f ∈ store_a_inline_b !!! l)
    [leaf "a"; leaf "b"].
Proof.
  apply (X2_collected_fields_included literal_argument_values ∅ ∅ 2
           store_a_inline_b (NOperationDefinition (query_at 1))).
  reflexivity.
Defined.

Lemma X3_self_spread_unbounded_witness :
  (∀ fuel acc,
     _add_fields literal_argument_values ∅ fragments_F fuel store_self_spread
       (NFragmentDefinition (FragmentDefinition.mk "F" "Root" [] (SelectionSet.mk 2)))
       acc = OutOfFuel) ∧
  (∀ fuel acc ast l rest',
     node_selections ast = Ok l →
     store_self_spread !!! l = spread "F" :: rest' →
     _add_fields literal_argument_values ∅ fragments_F fuel store_self_spread
       ast acc = OutOfFuel).
Proof.
  apply (X3_self_spread_unbounded literal_argument_values ∅ fragments_F
           store_self_spread
           (FragmentDefinition.mk "F" "Root" [] (SelectionSet.mk 2))
           (FragmentSpread.mk "F" []) [NField (leaf "a")]); reflexivity.
Defined.

(** ** Further properties of merging *)

Lemma od_set_new_app d k v : k ∉ od_keys d → od_set d k v = d ++ [(k, v)].
Proof.
  unfold od_keys. induction d as [|[k' v'] d IH]; simpl; [done|].
  intros [? ?]%not_elem_of_cons. case_decide; [congruence|].
  f_equal. by apply IH.
Qed.

Lemma merge_loop_distinct selections : ∀ (σ : store) merged,
  NoDup (field_key <$> selections) →
  (∀ s, s ∈ selections → field_key s ∉ od_keys merged) →
  merge_loop (σ, merged) selections =
    Ok (σ, merged ++ ((λ s, (field_key s, s)) <$> selections)).
Proof.
  unfold merge_loop.
  induction selections as [|selection selections IH]; intros σ merged Hnd Hnew;
    csimpl.
  - by rewrite app_nil_r.
  - apply NoDup_cons in Hnd as [Hnotin Hnd].
    unfold merge_step at 1.
    assert (field_key selection ∉ od_keys merged) as Hk by (apply Hnew; left).
    apply od_get_None in Hk as Hget. rewrite Hget, bind_Ok_l.
    rewrite od_set_new_app by done.
    rewrite IH; [by rewrite <- app_assoc | done |].
    intros s Hs. unfold od_keys. rewrite fmap_app, not_elem_of_app. split.
    + apply Hnew. by right.
    + simpl. rewrite not_elem_of_cons. split; [|apply not_elem_of_nil].
      intros Heq. apply Hnotin. rewrite <- Heq. by apply list_elem_of_fmap_2.
Qed.

Lemma _merge_fields_distinct (σ : store) selections :
  NoDup (field_key <$> selections) →
  _merge_fields σ selections = Ok (σ, selections).
Proof.
  intros Hnd. unfold _merge_fields.
  rewrite merge_loop_distinct; [|done|intros; apply not_elem_of_nil].
  simpl. do 2 f_equal. unfold od_values.
  rewrite <- list_fmap_compose. apply list_fmap_id.
Qed.

(** X4: merging selections whose output keys are pairwise distinct returns
    them as they are and does not touch the store; in particular merging
    the result of a merge again changes nothing. *)
Theorem X4_merge_distinct_keys :
  (∀ (σ : store) selections,
     NoDup (field_key <$> selections) →
     _merge_fields σ selections = Ok (σ, selections)) ∧
  (∀ (σ : store) selections σ' merged,
     _merge_fields σ selections = Ok (σ', merged) →
     _merge_fields σ' merged = Ok (σ', merged)).
Proof.
  split; [apply _merge_fields_distinct|].
  intros σ selections σ' merged Hmerge.
  apply _merge_fields_distinct.
  rewrite (_merge_fields_keys _ _ _ _ Hmerge). apply first_seen_NoDup.
Qed.

Lemma X4_merge_distinct_keys_witness :
  _merge_fields store_bab [leaf "b"; leaf "a"] =
    Ok (store_bab, [leaf "b"; leaf "a"]) ∧
  _merge_fields (<[2 := [NField (leaf "a"); NField (leaf "b")]]> store_r_twice)
    [branch "r" 2] =
    Ok (<[2 := [NField (leaf "a"); NField (leaf "b")]]> store_r_twice,
        [branch "r" 2]).
Proof.
  split.
  - apply (proj1 X4_merge_distinct_keys).
    apply (bool_decide_unpack _). vm_compute. exact I.
  - apply (proj2 X4_merge_distinct_keys store_r_twice
             [branch "r" 2; branch "r" 3]).
    reflexivity.
Defined.

Lemma store_grows_refl (σ : store) : store_grows σ σ.
Proof. by intros l. Qed.

Lemma store_grows_trans (σ1 σ2 σ3 : store) :
  store_grows σ1 σ2 → store_grows σ2 σ3 → store_grows σ1 σ3.
Proof. intros H12 H23 l. etrans; [apply H12 | apply H23]. Qed.

Lemma store_grows_extend (σ : store) l more :
  store_grows σ (<[l := (σ !!! l) ++ more]> σ).
Proof.
  intros l'. destruct (decide (l = l')) as [->|Hne].
  - rewrite lookup_total_insert_eq. by apply prefix_app_r.
  - by rewrite lookup_total_insert_ne.
Qed.

Lemma merge_step_grows (σ : store) merged selection σ' merged' :
  merge_step (σ, merged) selection = Ok (σ', merged') → store_grows σ σ'.
Proof.
  unfold merge_step.
  destruct (od_get merged (field_key selection)) as [stored|];
    [|intros [= <- _]; apply store_grows_refl].
  destruct (Field.selection_set selection) as [incoming|];
    [|intros [= <- _]; apply store_grows_refl].
  destruct (Field.selection_set stored) as [own|]; [|done].
  intros [= <- _]. apply store_grows_extend.
Qed.

Lemma merge_loop_grows selections : ∀ (σ : store) merged σ' merged',
  merge_loop (σ, merged) selections = Ok (σ', merged') → store_grows σ σ'.
Proof.
  unfold merge_loop.
  induction selections as [|selection selections IH];
    intros σ merged σ' merged'; simpl.
  - intros [= <- _]. apply store_grows_refl.
  - intros ([σ1 merged1] & Hstep & Hrest)%bind_Ok.
    eapply store_grows_trans; [by eapply merge_step_grows | by eapply IH].
Qed.

Lemma _merge_fields_grows (σ : store) selections σ' merged :
  _merge_fields σ selections = Ok (σ', merged) → store_grows σ σ'.
Proof.
  unfold _merge_fields. intros ([σ1 m] & Hloop & [= <- _])%bind_Ok.
  by eapply merge_loop_grows.
Qed.

Lemma build_children_grows {A} (build : store → A → res (store * Request)) l :
  (∀ (σ : store) x σ' r, build σ x = Ok (σ', r) → store_grows σ σ') →
  ∀ (σ : store) σ' rs,
    build_children build σ l = Ok (σ', rs) → store_grows σ σ'.
Proof.
  intros Hbuild. induction l as [|x l IH]; intros σ σ' rs; simpl.
  - intros [= <- _]. apply store_grows_refl.
  - intros ([σ1 r] & Hx & ([σ2 rs'] & Hrest & [= <- _])%bind_Ok)%bind_Ok.
    eapply store_grows_trans; [by eapply Hbuild | by eapply IH].
Qed.

Lemma request_from_graphql_ast_grows
    (get_argument_values :
       gmap string GraphQLArgument.t → list Argument.t → gmap string pyvalue →
       res (gmap string pyvalue))
    (fields : JoinType → gmap string FieldDesc.t)
    variables fragments fuel : ∀ (σ : store) ast root field σ' r,
  request_from_graphql_ast get_argument_values fields variables fragments
    fuel σ ast root field = Ok (σ', r) →
  store_grows σ σ'.
Proof.
  induction fuel as [fuel IH] using lt_wf_ind.
  intros σ ast root field σ' r.
  destruct fuel as [|fuel]; [done|]. rewrite request_from_graphql_ast_S.
  intros (args & _ & ([σ1 sels] & Hsels & [= <- _])%bind_Ok)%bind_Ok.
  destruct fuel as [|fuel]; [done|]. rewrite _graphql_selections_S in Hsels.
  apply bind_Ok in Hsels as ([ss|] & _ & H);
    [|injection H as <- _; apply store_grows_refl].
  apply bind_Ok in H as (collected & _ & H).
  apply bind_Ok in H as ([σ2 merged] & Hmerge & H).
  apply bind_Ok in H as ([σ3 rs] & Hbuild & [= <- _]).
  eapply store_grows_trans; [by eapply _merge_fields_grows|].
  eapply build_children_grows; [|done].
  intros σa selection σb r'. unfold request_child.
  intros (fd & _ & Hsel)%bind_Ok.
  destruct fuel as [|fuel]; [done|].
  rewrite _request_from_selection_S in Hsel.
  eapply IH; [|done]. lia.
Qed.

(** X5: the compiler changes the document it is given only by appending
    to its selection lists: after a successful merge, and after a
    successful compilation, every list of the store starts with what it
    held before; merging two selections of one key that both have a
    selection set appends the second one's list to the first one's, in
    place. *)
Theorem X5_selection_lists_only_grow
    (get_argument_values :
       gmap string GraphQLArgument.t → list Argument.t → gmap string pyvalue →
       res (gmap string pyvalue))
    (fields : JoinType → gmap string FieldDesc.t) :
  (∀ (σ : store) selections σ' merged,
     _merge_fields σ selections = Ok (σ', merged) → store_grows σ σ') ∧
  (∀ (σ : store) f1 f2 own incoming,
     field_key f1 = field_key f2 →
     Field.selection_set f1 = Some own →
     Field.selection_set f2 = Some incoming →
     _merge_fields σ [f1; f2] =
       Ok (<[SelectionSet.selections own :=
               (σ !!! SelectionSet.selections own) ++
               (σ !!! SelectionSet.selections incoming)]> σ, [f1])) ∧
  (∀ fuel (σ : store) document query_root mutation_root variables σ' dr,
     request_from_graphql_document get_argument_values fields fuel σ document
       query_root mutation_root variables = Ok (σ', dr) →
     store_grows σ σ').
Proof.
  split; [|split].
  - apply _merge_fields_grows.
  - intros σ f1 f2 own incoming Hkey Hown Hinc.
    unfold _merge_fields, merge_loop. simpl.
    rewrite <- Hkey, decide_True by done. rewrite Hinc, Hown. simpl.
    by rewrite decide_True.
  - intros fuel σ document query_root mutation_root variables σ' dr Hdoc.
    apply request_from_graphql_document_Ok in Hdoc
      as (i & operation & sel & _ & _ & _ & Hquery).
    apply request_from_graphql_ast_grows in Hquery.
    eapply store_grows_trans; [|done].
    destruct sel as [selection|]; simpl; [|apply store_grows_refl].
    intros l. destruct (decide (l = fresh (dom σ))) as [->|Hne].
    + rewrite (lookup_total_alt σ).
      assert (σ !! fresh (dom σ) = None) as ->
        by (apply not_elem_of_dom, is_fresh).
      apply prefix_nil.
    + by rewrite lookup_total_insert_ne.
Qed.

Lemma X5_selection_lists_only_grow_witness :
  store_grows store_r_twice
    (<[2 := [NField (leaf "a"); NField (leaf "b")]]> store_r_twice) ∧
  _merge_fields store_r_twice [branch "r" 2; branch "r" 3] =
    Ok (<[2 := (store_r_twice !!! 2) ++ (store_r_twice !!! 3)]> store_r_twice,
        [branch "r" 2]) ∧
  store_grows store_r_twice
    (<[2 := [NField (leaf "a"); NField (leaf "b")]]> store_r_twice).
Proof.
  pose proof (X5_selection_lists_only_grow literal_argument_values
                example_fields) as (Hmerge & Htwo & Hdoc).
  split; [|split].
  - apply (Hmerge store_r_twice [branch "r" 2; branch "r" 3] _ [branch "r" 2]).
    reflexivity.
  - apply (Htwo store_r_twice (branch "r" 2) (branch "r" 3)
             (SelectionSet.mk 2) (SelectionSet.mk 3)); reflexivity.
  - apply (Hdoc 16 store_r_twice
             (Document.mk [NOperationDefinition (query_at 1)]) "Root" "Root" ∅
             _ (DocumentRequest.mk
                  (mkRequest None None ∅
                     (Some [mkRequest (Some "r") (Some to_root) ∅
                              (Some [mkRequest (Some "a") (Some scalar) ∅ None [];
                                     mkRequest (Some "b") (Some scalar) ∅ None []])
                              []]) [])
                  None)).
    reflexivity.
Defined.

(** ** Further properties of the Request tree *)

(** X6: a later leaf selection under an output key that is already taken
    is ignored altogether: its field name is never looked up and its
    arguments are never coerced, so the operation compiles exactly as
    without it. *)
Theorem X6_later_leaf_of_a_key_ignored
    (get_argument_values :
       gmap string GraphQLArgument.t → list Argument.t → gmap string pyvalue →
       res (gmap string pyvalue))
    (fields : JoinType → gmap string FieldDesc.t)
    (variables : gmap string pyvalue)
    (fragments : gmap string FragmentDefinition.t)
    fuel (σ : store) l1 l2 f1 f2 o root field b :
  σ !! l1 = Some [NField f1; NField f2] →
  σ !! l2 = Some [NField f1] →
  field_key f2 = field_key f1 →
  Field.selection_set f2 = None →
  _should_include_node get_argument_values variables (NField f1) = Ok true →
  _should_include_node get_argument_values variables (NField f2) = Ok b →
  request_from_graphql_ast get_argument_values fields variables fragments fuel σ
    (NOperationDefinition (OperationDefinition.with_selections o l1)) root field =
  request_from_graphql_ast get_argument_values fields variables fragments fuel σ
    (NOperationDefinition (OperationDefinition.with_selections o l2)) root field.
Proof.
  intros Hl1 Hl2 Hkey Hleaf Hinc1 Hinc2.
  destruct fuel as [|fuel]; [done|]. rewrite !request_from_graphql_ast_S.
  simpl. f_equal.
  destruct fuel as [|fuel]; [done|]. rewrite !_graphql_selections_S.
  simpl. unfold _collect_fields.
  destruct fuel as [|fuel]; [done|]. rewrite !_add_fields_S. simpl.
  rewrite (lookup_total_correct _ _ _ Hl1), (lookup_total_correct _ _ _ Hl2).
  simpl. unfold add_selection. rewrite Hinc1. simpl. rewrite Hinc2. simpl.
  destruct b; simpl; [|done].
  unfold _merge_fields, merge_loop. simpl.
  rewrite Hkey, decide_True by done. by rewrite Hleaf.
Qed.

Lemma X6_later_leaf_of_a_key_ignored_witness :
  example_fields "Root" !! "zzz" = None ∧
  request_from_graphql_ast literal_argument_values example_fields ∅ ∅ 5
    store_alias_twice (NOperationDefinition (query_at 1)) "Root" None =
  request_from_graphql_ast literal_argument_values example_fields ∅ ∅ 5
    store_alias_twice (NOperationDefinition (query_at 2)) "Root" None.
Proof.
  split; [reflexivity|].
  apply (X6_later_leaf_of_a_key_ignored literal_argument_values example_fields
           ∅ ∅ 5 store_alias_twice 1 2 a_as_x zzz_as_x (query_at 0) "Root" None
           true); reflexivity.
Defined.

(** X7: selecting a field twice with selection sets compiles exactly as
    selecting it once in the store where the list of the first selection
    has been extended by the list of the second: the sub-selections of the
    two are merged, and the arguments, name and directives of the second
    play no part once it is included. *)
Theorem X7_repeated_selection_sets_concatenate
    (get_argument_values :
       gmap string GraphQLArgument.t → list Argument.t → gmap string pyvalue →
       res (gmap string pyvalue))
    (fields : JoinType → gmap string FieldDesc.t)
    (variables : gmap string pyvalue)
    (fragments : gmap string FragmentDefinition.t)
    fuel (σ : store) l1 l2 f1 f2 own incoming o root field :
  σ !! l1 = Some [NField f1; NField f2] →
  σ !! l2 = Some [NField f1] →
  l2 ≠ SelectionSet.selections own →
  field_key f2 = field_key f1 →
  Field.selection_set f1 = Some own →
  Field.selection_set f2 = Some incoming →
  _should_include_node get_argument_values variables (NField f1) = Ok true →
  _should_include_node get_argument_values variables (NField f2) = Ok true →
  request_from_graphql_ast get_argument_values fields variables fragments fuel σ
    (NOperationDefinition (OperationDefinition.with_selections o l1)) root field =
  request_from_graphql_ast get_argument_values fields variables fragments fuel
    (<[SelectionSet.selections own :=
         (σ !!! SelectionSet.selections own) ++
         (σ !!! SelectionSet.selections incoming)]> σ)
    (NOperationDefinition (OperationDefinition.with_selections o l2)) root field.
Proof.
  intros Hl1 Hl2 Hne Hkey Hown Hincoming Hinc1 Hinc2.
  destruct fuel as [|fuel]; [done|]. rewrite !request_from_graphql_ast_S.
  simpl. f_equal.
  destruct fuel as [|fuel]; [done|]. rewrite !_graphql_selections_S.
  simpl. unfold _collect_fields.
  destruct fuel as [|fuel]; [done|]. rewrite !_add_fields_S. simpl.
  rewrite lookup_total_insert_ne by done.
  rewrite (lookup_total_correct _ _ _ Hl1), (lookup_total_correct _ _ _ Hl2).
  simpl. unfold add_selection. rewrite Hinc1. simpl. rewrite Hinc2. simpl.
  unfold _merge_fields, merge_loop. simpl.
  rewrite Hkey, decide_True by done. rewrite Hincoming, Hown. simpl.
  by rewrite decide_True.
Qed.

Lemma X7_repeated_selection_sets_concatenate_witness :
  request_from_graphql_ast literal_argument_values example_fields ∅ ∅ 16
    store_r_twice (NOperationDefinition (query_at 1)) "Root" None =
  request_from_graphql_ast literal_argument_values example_fields ∅ ∅ 16
    (<[2 := (store_r_twice !!! 2) ++ (store_r_twice !!! 3)]> store_r_twice)
    (NOperationDefinition (query_at 4)) "Root" None.
Proof.
  apply (X7_repeated_selection_sets_concatenate literal_argument_values
           example_fields ∅ ∅ 16 store_r_twice 1 4 (branch "r" 2) (branch "r" 3)
           (SelectionSet.mk 2) (SelectionSet.mk 3) (query_at 0) "Root" None);
    try reflexivity; done.
Defined.

(** ** The shape of compiled trees *)

Section shape.
Variable get_argument_values :
  gmap string GraphQLArgument.t → list Argument.t → gmap string pyvalue →
  res (gmap string pyvalue).
Variable fields : JoinType → gmap string FieldDesc.t.
Variable variables : gmap string pyvalue.
Variable fragments : gmap string FragmentDefinition.t.

Local Abbreviation request_from_graphql_ast :=
  (request_from_graphql_ast get_argument_values fields variables fragments).
Local Abbreviation _graphql_selections :=
  (_graphql_selections get_argument_values fields variables fragments).
Local Abbreviation _request_from_selection :=
  (_request_from_selection get_argument_values fields variables fragments).

Lemma children_keys_distinct flds (merged : list Field.t) children :
  NoDup (field_key <$> merged) →
  Forall2 (child_of get_argument_values fields variables fragments flds)
    (filter (λ selection, _field_name selection ≠ "__schema") merged)
    children →
  NoDup (Req.key <$> children).
Proof.
  intros Hnd Hch.
  assert (Req.key <$> children =
          Some <$> (field_key <$>
             filter (λ selection, _field_name selection ≠ "__schema") merged))
    as ->.
  { induction Hch as [|s c ss cs (fd & _ & Hk & _) _ IH]; csimpl; [done|].
    by rewrite Hk, IH. }
  apply (NoDup_fmap_2 _). eapply sublist_NoDup; [exact Hnd|].
  apply fmap_sublist, sublist_filter.
Qed.

(** X8: every compiled tree, at every depth, has children with pairwise
    distinct output keys, each with a key and a field descriptor, and no
    join selections anywhere; the root of the tree carries the output key
    of the node it was compiled from (none for an operation) and the field
    descriptor it was given. *)
Theorem X8_compiled_tree_shape fuel : ∀ (σ : store) ast root field σ' r,
  request_from_graphql_ast fuel σ ast root field = Ok (σ', r) →
  Req.key r = match ast with NField f => Some (field_key f) | _ => None end ∧
  Req.field r = field ∧
  request_shape r.
Proof.
  induction fuel as [fuel IH] using lt_wf_ind.
  destruct fuel as [|fuel]; [done|]. intros σ ast root field σ' r.
  rewrite request_from_graphql_ast_S.
  intros (args & Hargs & ([σ1 [children|]] & Hsels & [= <- <-])%bind_Ok)%bind_Ok.
  2: { repeat split; try done. by apply request_shape_leaf. }
  repeat split; try done.
  pose proof Hsels as Hchildren.
  apply _graphql_selections_children in Hchildren
    as (fuel' & collected & σ2 & merged & -> & _ & Hmerge & Hch).
  eapply request_shape_node; [done..| |].
  - eapply children_keys_distinct; [|exact Hch].
    rewrite (_merge_fields_keys _ _ _ _ Hmerge). apply first_seen_NoDup.
  - rewrite _graphql_selections_S in Hsels.
    apply bind_Ok in Hsels as ([ss|] & Hss & H); [|done].
    apply bind_Ok in H as (collected' & Hcollect & H).
    apply bind_Ok in H as ([σ3 merged'] & Hmerge' & H).
    apply bind_Ok in H as ([σ4 rs] & Hbuild & [= <- <-]).
    apply build_children_Forall2 in Hbuild.
    eapply Forall2_Forall_r; [exact Hbuild|].
    apply Forall_true. intros selection c (σa & σb & Hchild).
    unfold request_child, dict_get in Hchild.
    destruct (fields root !! _field_name selection) as [fd|]; [|done].
    rewrite bind_Ok_l in Hchild.
    destruct fuel' as [|fuel']; [done|].
    rewrite _request_from_selection_S in Hchild.
    apply IH in Hchild as (Hk & Hf & Hshape); [|lia].
    rewrite Hk, Hf. eauto.
Qed.

End shape.

Lemma X8_compiled_tree_shape_witness :
  request_shape
    (mkRequest None None ∅
       (Some [mkRequest (Some "r") (Some to_root) ∅
                (Some [mkRequest (Some "a") (Some scalar) ∅ None [];
                       mkRequest (Some "b") (Some scalar) ∅ None []])
                []]) []).
Proof.
  apply (X8_compiled_tree_shape literal_argument_values example_fields ∅ ∅ 16
           store_r_twice (NOperationDefinition (query_at 1)) "Root" None
           (<[2 := [NField (leaf "a"); NField (leaf "b")]]> store_r_twice)).
  vm_compute. reflexivity.
Defined.

(** ** The definitions of a document *)

Lemma operations_of_from definitions :
  operations_of definitions = operations_from id definitions.
Proof. reflexivity. Qed.

Lemma operations_from_cons g definition definitions :
  operations_from g (definition :: definitions) =
    match definition with
    | NOperationDefinition o => [(g 0, o)]
    | _ => []
    end ++ operations_from (g ∘ S) definitions.
Proof. unfold operations_from. rewrite imap_cons. by destruct definition. Qed.

Lemma operations_from_index g definitions p :
  p ∈ operations_from g definitions → ∃ j, p.1 = g j.
Proof.
  unfold operations_from. rewrite list_elem_of_omap.
  intros ([j n] & Hin & Hsome).
  apply elem_of_lookup_imap in Hin as (j' & n' & [= -> ->] & _).
  simpl in Hsome. destruct n'; try done. injection Hsome as <-. by exists j'.
Qed.

(** Replacing the operation at position [i] replaces its entry and no
    other. *)
Lemma operations_from_insert g `{!Inj eq eq g} definitions : ∀ i o o',
  definitions !! i = Some (NOperationDefinition o) →
  operations_from g (<[i := NOperationDefinition o']> definitions) =
    (λ p, if decide (p.1 = g i) then (g i, o') else p) <$>
      operations_from g definitions.
Proof.
  revert g Inj0.
  induction definitions as [|x definitions IH]; intros g Hg i o o'; [done|].
  destruct i as [|i]; simpl.
  - intros [= ->]. rewrite !operations_from_cons. csimpl.
    rewrite decide_True by done. f_equal.
    symmetry. etrans; [|apply list_fmap_id].
    apply Forall_fmap_ext. apply Forall_forall. intros p Hp.
    apply operations_from_index in Hp as [j Hj].
    rewrite decide_False; [done|]. rewrite Hj. simpl. intros ?%(inj g). done.
  - intros Hi. rewrite !operations_from_cons, fmap_app.
    rewrite (IH (g ∘ S) _ i o o' Hi). f_equal.
    destruct x; csimpl; try done.
    rewrite decide_False; [done|]. intros ?%(inj g). done.
Qed.

Lemma fragments_of_insert_operation definitions i o o' :
  definitions !! i = Some (NOperationDefinition o) →
  fragments_of (<[i := NOperationDefinition o']> definitions) =
  fragments_of definitions.
Proof.
  unfold fragments_of. generalize (∅ : gmap string FragmentDefinition.t).
  revert i. induction definitions as [|x definitions IH]; intros i m; [done|].
  destruct i as [|i]; simpl.
  - by intros [= ->].
  - intros Hi. by apply IH.
Qed.

(** X9: the secondary document of a successful compilation has exactly one
    operation definition, at the position of the input's operation and equal
    to it but for the list its selection set holds; it defines the same
    fragments as the input and has as many definitions. *)
Theorem X9_secondary_document_well_formed
    (get_argument_values :
       gmap string GraphQLArgument.t → list Argument.t → gmap string pyvalue →
       res (gmap string pyvalue))
    (fields : JoinType → gmap string FieldDesc.t)
    fuel (σ : store) document query_root mutation_root variables σ' dr
    schema_query :
  request_from_graphql_document get_argument_values fields fuel σ document
    query_root mutation_root variables = Ok (σ', dr) →
  DocumentRequest.schema_query dr = Some schema_query →
  (∃ definition_index operation,
     operations_of (Document.definitions document) =
       [(definition_index, operation)] ∧
     operations_of (Document.definitions schema_query) =
       [(definition_index,
         OperationDefinition.with_selections operation (fresh (dom σ)))]) ∧
  fragments_of (Document.definitions schema_query) =
    fragments_of (Document.definitions document) ∧
  length (Document.definitions schema_query) =
    length (Document.definitions document).
Proof.
  intros Hrun Hsq.
  apply request_from_graphql_document_Ok in Hrun
    as (i & operation & selection & Hops & Hfind & Hdoc & _).
  rewrite Hdoc in Hsq. destruct selection as [selection|]; [|done].
  simpl in Hsq. injection Hsq as <-. simpl.
  assert (Document.definitions document !! i =
          Some (NOperationDefinition operation)) as Hi.
  { apply operations_of_lookup. rewrite Hops. apply list_elem_of_here. }
  split; [|split].
  - exists i, operation. split; [done|].
    rewrite operations_of_from, (operations_from_insert id _ i operation) by done.
    rewrite <- operations_of_from, Hops. csimpl. by rewrite decide_True.
  - by eapply fragments_of_insert_operation.
  - by rewrite length_insert.
Qed.

Lemma X9_secondary_document_well_formed_witness :
  (∃ definition_index operation,
     operations_of [fragment_at "F" 2; NOperationDefinition (query_at 1)] =
       [(definition_index, operation)] ∧
     operations_of
       [fragment_at "F" 2;
        NOperationDefinition (query_at (fresh (dom store_schema_a)))] =
       [(definition_index,
         OperationDefinition.with_selections operation
           (fresh (dom store_schema_a)))]) ∧
  fragments_of
    [fragment_at "F" 2;
     NOperationDefinition (query_at (fresh (dom store_schema_a)))] =
    fragments_of [fragment_at "F" 2; NOperationDefinition (query_at 1)].
Proof.
  assert (request_from_graphql_document literal_argument_values example_fields
            16 store_schema_a
            (Document.mk [fragment_at "F" 2; NOperationDefinition (query_at 1)])
            "Root" "Root" ∅ =
          Ok (<[fresh (dom store_schema_a) := [NField (branch "__schema" 2)]]>
                store_schema_a,
              DocumentRequest.mk
                (mkRequest None None ∅
                   (Some [mkRequest (Some "a") (Some scalar) ∅ None []]) [])
                (Some (Document.mk
                         [fragment_at "F" 2;
                          NOperationDefinition
                            (query_at (fresh (dom store_schema_a)))]))))
    as Hrun by (vm_compute; reflexivity).
  destruct (X9_secondary_document_well_formed _ _ _ _ _ _ _ _ _ _ _ Hrun eq_refl)
    as (Hops & Hfr & _).
  split; [exact Hops | exact Hfr].
Defined.

Lemma fragments_of_last definitions name :
  fragments_of definitions !! name =
  last (omap (fragment_named name) definitions).
Proof.
  unfold fragments_of.
  induction definitions as [|x definitions IH] using rev_ind; [done|].
  rewrite foldl_app, omap_app. simpl.
  destruct x as [| | | |d]; simpl; rewrite ?app_nil_r; try done.
  case_decide as Hname.
  - subst name. by rewrite lookup_insert_eq, last_snoc.
  - by rewrite lookup_insert_ne, app_nil_r.
Qed.

(** X10: fragment definitions that share a name are not rejected: the table
    of fragments holds, for every name, the last definition of that name in
    the document, so a spread expands to the selections of the last
    definition and earlier ones are shadowed. *)
Theorem X10_last_fragment_definition_wins
    (get_argument_values :
       gmap string GraphQLArgument.t → list Argument.t → gmap string pyvalue →
       res (gmap string pyvalue))
    (variables : gmap string pyvalue) :
  (∀ definitions name,
     fragments_of definitions !! name =
     last (omap (fragment_named name) definitions)) ∧
  (∀ pre d post fuel (σ : store) ast l s,
     Forall (λ definition,
               fragment_named (FragmentDefinition.name d) definition = None)
       post →
     node_selections ast = Ok l →
     σ !!! l = [NFragmentSpread s] →
     FragmentSpread.name s = FragmentDefinition.name d →
     _should_include_node get_argument_values variables (NFragmentSpread s) =
       Ok true →
     _collect_fields get_argument_values variables
       (fragments_of (pre ++ NFragmentDefinition d :: post)) (S fuel) σ ast =
     _collect_fields get_argument_values variables
       (fragments_of (pre ++ NFragmentDefinition d :: post)) fuel σ
       (NFragmentDefinition d)).
Proof.
  split; [apply fragments_of_last|].
  intros pre d post fuel σ ast l s Hpost Hl Hσ Hname Hinc.
  unfold _collect_fields. rewrite _add_fields_S, Hl. simpl. rewrite Hσ. simpl.
  rewrite add_selection_spread by done.
  unfold dict_get. rewrite Hname, fragments_of_last, omap_app. csimpl.
  rewrite decide_True by done.
  assert (omap (fragment_named (FragmentDefinition.name d)) post = []) as ->.
  { induction Hpost as [|x post Hx _ IH]; csimpl; [done|]. by rewrite Hx. }
  rewrite last_snoc. simpl.
  by destruct (_add_fields _ _ _ _ _ _ _).
Qed.

Lemma X10_last_fragment_definition_wins_witness :
  _collect_fields literal_argument_values ∅
    (fragments_of [fragment_at "F" 2; fragment_at "F" 3]) 3
    store_spread_two_definitions (NOperationDefinition (query_at 1)) =
  _collect_fields literal_argument_values ∅
    (fragments_of [fragment_at "F" 2; fragment_at "F" 3]) 2
    store_spread_two_definitions (fragment_at "F" 3) ∧
  _collect_fields literal_argument_values ∅
    (fragments_of [fragment_at "F" 2; fragment_at "F" 3]) 3
    store_spread_two_definitions (NOperationDefinition (query_at 1)) =
  Ok [leaf "b"].
Proof.
  split; [|reflexivity].
  apply (proj2 (X10_last_fragment_definition_wins literal_argument_values ∅)
           [fragment_at "F" 2]
           (FragmentDefinition.mk "F" "Root" [] (SelectionSet.mk 3)) [] 2
           store_spread_two_definitions (NOperationDefinition (query_at 1)) 1
           (FragmentSpread.mk "F" [])); try reflexivity.
  constructor.
Defined.

(** ** What the compiler never reads *)

Lemma foldM_ext {A B} (f g : B → A → res B) l : ∀ acc,
  (∀ acc x, f acc x = g acc x) → foldM f acc l = foldM g acc l.
Proof.
  induction l as [|x l IH]; intros acc Hfg; simpl; [done|].
  rewrite Hfg. apply bind_res_ext. intros acc'. by apply IH.
Qed.

Lemma build_children_ext {A} (f g : store → A → res (store * Request)) l :
  ∀ σ, (∀ σ x, f σ x = g σ x) → build_children f σ l = build_children g σ l.
Proof.
  induction l as [|x l IH]; intros σ Hfg; simpl; [done|].
  rewrite Hfg. apply bind_res_ext. intros [σ1 r]. by rewrite IH.
Qed.

Section metadata.
Variable get_argument_values :
  gmap string GraphQLArgument.t → list Argument.t → gmap string pyvalue →
  res (gmap string pyvalue).
Variable fields : JoinType → gmap string FieldDesc.t.
Variable variables : gmap string pyvalue.

Local Abbreviation _add_fields := (_add_fields get_argument_values variables).
Local Abbreviation request_from_graphql_ast :=
  (request_from_graphql_ast get_argument_values fields variables).
Local Abbreviation _graphql_selections :=
  (_graphql_selections get_argument_values fields variables).
Local Abbreviation _request_from_selection :=
  (_request_from_selection get_argument_values fields variables).

Lemma _add_fields_same_selections fragments fuel σ ast ast' acc :
  node_selections ast = node_selections ast' →
  _add_fields fragments fuel σ ast acc = _add_fields fragments fuel σ ast' acc.
Proof.
  intros H. destruct fuel as [|fuel]; [done|].
  by rewrite !_add_fields_S, H.
Qed.

Lemma _add_fields_same_fragments fragments fragments' :
  same_selection_sets fragments fragments' →
  ∀ fuel σ ast acc,
    _add_fields fragments fuel σ ast acc = _add_fields fragments' fuel σ ast acc.
Proof.
  intros Hsame. induction fuel as [|fuel IH]; intros σ ast acc; [done|].
  rewrite !_add_fields_S. apply bind_res_ext. intros l.
  apply foldM_ext. intros acc' selection. unfold add_selection.
  apply bind_res_ext. intros [|]; [|done].
  destruct selection as [f|s|i|o|d]; try done.
  unfold dict_get. specialize (Hsame (FragmentSpread.name s)).
    destruct (fragments !! FragmentSpread.name s) as [d|],
      (fragments' !! FragmentSpread.name s) as [d'|]; try done.
    simpl in *. injection Hsame as Hss. rewrite IH.
    apply _add_fields_same_selections. unfold node_selections. simpl.
    by rewrite Hss.
Qed.

Lemma tree_same_fragments fragments fragments' :
  same_selection_sets fragments fragments' →
  ∀ fuel,
    (∀ σ ast root field,
       request_from_graphql_ast fragments fuel σ ast root field =
       request_from_graphql_ast fragments' fuel σ ast root field) ∧
    (∀ σ ast root,
       _graphql_selections fragments fuel σ ast root =
       _graphql_selections fragments' fuel σ ast root) ∧
    (∀ σ selection fd,
       _request_from_selection fragments fuel σ selection fd =
       _request_from_selection fragments' fuel σ selection fd).
Proof.
  intros Hsame. induction fuel as [fuel IH] using lt_wf_ind.
  destruct fuel as [|fuel]; [done|].
  destruct (IH fuel ltac:(lia)) as (IHast & IHsels & IHsel).
  split; [|split].
  - intros σ ast root field. rewrite !request_from_graphql_ast_S.
    apply bind_res_ext. intros args. by rewrite IHsels.
  - intros σ ast root. rewrite !_graphql_selections_S.
    apply bind_res_ext. intros [ss|]; [|done].
    unfold _collect_fields.
    rewrite (_add_fields_same_fragments _ _ Hsame).
    apply bind_res_ext. intros collected.
    apply bind_res_ext. intros [σ1 merged].
    f_equal. by apply build_children_ext; intros σa selection; unfold request_child;
      apply bind_res_ext; intros fd.
  - intros σ selection fd. rewrite !_request_from_selection_S. apply IHast.
Qed.

Lemma request_from_graphql_ast_same_operation fragments fuel σ o o' root field :
  OperationDefinition.selection_set o = OperationDefinition.selection_set o' →
  request_from_graphql_ast fragments fuel σ (NOperationDefinition o) root field =
  request_from_graphql_ast fragments fuel σ (NOperationDefinition o') root field.
Proof.
  intros Hss. destruct fuel as [|fuel]; [done|].
  rewrite !request_from_graphql_ast_S. simpl.
  apply bind_res_ext. intros args.
  destruct fuel as [|fuel]; [done|]. rewrite !_graphql_selections_S. simpl.
  unfold _collect_fields.
  rewrite (_add_fields_same_selections fragments fuel σ
             (NOperationDefinition o) (NOperationDefinition o')); [done|].
  unfold node_selections. simpl. by rewrite Hss.
Qed.

End metadata.

Lemma same_definition_refl definition : same_definition definition definition.
Proof. by destruct definition. Qed.

Lemma fragments_of_same_definitions definitions definitions' :
  Forall2 same_definition definitions definitions' →
  same_selection_sets (fragments_of definitions) (fragments_of definitions').
Proof.
  unfold fragments_of.
  assert (same_selection_sets ∅ ∅) as Hempty by done. revert Hempty.
  generalize (∅ : gmap string FragmentDefinition.t) at 1 3.
  generalize (∅ : gmap string FragmentDefinition.t).
  intros m' m Hm Hdefs. revert m m' Hm.
  induction Hdefs as [|x y l l' Hxy _ IH]; intros m m' Hm; [done|].
  simpl. apply IH.
  destruct x as [| | | |d], y as [| | | |d']; simpl in Hxy; try done.
  destruct Hxy as [Hname Hss]. intros name. rewrite <- Hname.
  destruct (decide (name = FragmentDefinition.name d)) as [->|Hne].
  - rewrite !lookup_insert_eq. simpl. by rewrite Hss.
  - rewrite !lookup_insert_ne by done. apply Hm.
Qed.

Lemma operations_from_same_definitions definitions definitions' :
  Forall2 same_definition definitions definitions' →
  ∀ g, operations_from g definitions = operations_from g definitions'.
Proof.
  induction 1 as [|x y l l' Hxy _ IH]; intros g; [done|].
  rewrite !operations_from_cons, IH. f_equal.
  destruct x, y; simpl in Hxy; try done. by injection Hxy as ->.
Qed.

(** X11: of the operation definition the compiler reads the selection set
    and whether the operation kind is [mutation], nothing else: the name,
    the variable definitions and the directives of the operation are never
    consulted, every kind other than [mutation] is compiled against the
    query root, and the root that is not chosen plays no part. *)
Theorem X11_operation_metadata_ignored
    (get_argument_values :
       gmap string GraphQLArgument.t → list Argument.t → gmap string pyvalue →
       res (gmap string pyvalue))
    (fields : JoinType → gmap string FieldDesc.t) :
  (∀ definitions i o o' fuel (σ : store) query_root mutation_root variables,
     definitions !! i = Some (NOperationDefinition o) →
     OperationDefinition.selection_set o' = OperationDefinition.selection_set o →
     (OperationDefinition.operation o' = "mutation" ↔
      OperationDefinition.operation o = "mutation") →
     compiled_query
       (request_from_graphql_document get_argument_values fields fuel σ
          (Document.mk (<[i := NOperationDefinition o']> definitions))
          query_root mutation_root variables) =
     compiled_query
       (request_from_graphql_document get_argument_values fields fuel σ
          (Document.mk definitions) query_root mutation_root variables)) ∧
  (∀ document fuel (σ : store) query_root mutation_root mutation_root'
     variables,
     Forall (λ p, OperationDefinition.operation p.2 ≠ "mutation")
       (operations_of (Document.definitions document)) →
     request_from_graphql_document get_argument_values fields fuel σ document
       query_root mutation_root variables =
     request_from_graphql_document get_argument_values fields fuel σ document
       query_root mutation_root' variables) ∧
  (∀ document fuel (σ : store) query_root query_root' mutation_root variables,
     Forall (λ p, OperationDefinition.operation p.2 = "mutation")
       (operations_of (Document.definitions document)) →
     request_from_graphql_document get_argument_values fields fuel σ document
       query_root mutation_root variables =
     request_from_graphql_document get_argument_values fields fuel σ document
       query_root' mutation_root variables).
Proof.
  split; [|split].
  - intros definitions i o o' fuel σ q m variables Hi Hss Hkind.
    unfold compiled_query, request_from_graphql_document. simpl.
    rewrite (fragments_of_insert_operation _ _ _ _ Hi).
    rewrite (operations_of_from (<[_ := _]> _)).
    rewrite (operations_from_insert id _ _ _ _ Hi), <- operations_of_from.
    destruct (operations_of definitions) as [|[j o1] [|p2 rest]] eqn:Hops;
      csimpl; try done.
    case_decide as Hj; simpl.
    + subst j.
      assert (definitions !! i = Some (NOperationDefinition o1)) as Hi1.
      { apply operations_of_lookup. rewrite Hops. apply list_elem_of_here. }
      rewrite Hi in Hi1. injection Hi1 as <-. rewrite Hss.
      assert ((if decide (OperationDefinition.operation o' = "mutation")
               then m else q) =
              (if decide (OperationDefinition.operation o = "mutation")
               then m else q)) as ->.
      { repeat case_decide; naive_solver. }
      destruct (find names_schema _) as [[selection|]| |]; simpl; try done.
      * rewrite (request_from_graphql_ast_same_operation _ _ _ _ _ _ o' o)
          by done.
        by destruct (request_from_graphql_ast _ _ _ _ _ _ _ _ _) as [[??]| |].
      * rewrite (request_from_graphql_ast_same_operation _ _ _ _ _ _ o' o)
          by done.
        by destruct (request_from_graphql_ast _ _ _ _ _ _ _ _ _) as [[??]| |].
    + destruct (find names_schema _) as [[selection|]| |]; simpl; try done.
      by destruct (request_from_graphql_ast _ _ _ _ _ _ _ _ _) as [[??]| |].
  - intros document fuel σ q m m' variables Hkinds.
    unfold request_from_graphql_document.
    destruct (operations_of (Document.definitions document))
      as [|[j o1] [|p2 rest]]; try done.
    apply Forall_inv in Hkinds. simpl in *. by rewrite !decide_False by done.
  - intros document fuel σ q q' m variables Hkinds.
    unfold request_from_graphql_document.
    destruct (operations_of (Document.definitions document))
      as [|[j o1] [|p2 rest]]; try done.
    apply Forall_inv in Hkinds. simpl in *. by rewrite !decide_True by done.
Qed.

Lemma X11_operation_metadata_ignored_witness :
  compiled_query
    (compile_example store_r_twice
       (<[0 := NOperationDefinition
                 (OperationDefinition.mk "subscription" (Some "Named") []
                    [directive_if "skip" (BooleanValue true)]
                    (SelectionSet.mk 1))]>
          [NOperationDefinition (query_at 1)]) ∅) =
  compiled_query
    (compile_example store_r_twice [NOperationDefinition (query_at 1)] ∅) ∧
  request_from_graphql_document literal_argument_values example_fields 16
    store_r_twice (Document.mk [NOperationDefinition (query_at 1)])
    "Root" "Root" ∅ =
  request_from_graphql_document literal_argument_values example_fields 16
    store_r_twice (Document.mk [NOperationDefinition (query_at 1)])
    "Root" "Missing" ∅.
Proof.
  pose proof (X11_operation_metadata_ignored literal_argument_values
                example_fields) as (Hop & Hquery & _).
  split.
  - apply (Hop [NOperationDefinition (query_at 1)] 0 (query_at 1)); [done..|].
    split; intros; discriminate.
  - apply Hquery. repeat constructor. discriminate.
Defined.

(** X12: of a fragment definition the compiler reads the name and the
    selection set, nothing else: type conditions and directives of fragment
    definitions are never consulted, so fragment tables that agree on the
    selection sets give the same tree, and documents that differ only in
    type conditions and directives of their fragment definitions compile to
    the same query. *)
Theorem X12_fragment_metadata_ignored
    (get_argument_values :
       gmap string GraphQLArgument.t → list Argument.t → gmap string pyvalue →
       res (gmap string pyvalue))
    (fields : JoinType → gmap string FieldDesc.t) :
  (∀ fragments fragments' variables fuel (σ : store) ast root field,
     same_selection_sets fragments fragments' →
     request_from_graphql_ast get_argument_values fields variables fragments
       fuel σ ast root field =
     request_from_graphql_ast get_argument_values fields variables fragments'
       fuel σ ast root field) ∧
  (∀ definitions definitions' fuel (σ : store) query_root mutation_root
     variables,
     Forall2 same_definition definitions definitions' →
     compiled_query
       (request_from_graphql_document get_argument_values fields fuel σ
          (Document.mk definitions) query_root mutation_root variables) =
     compiled_query
       (request_from_graphql_document get_argument_values fields fuel σ
          (Document.mk definitions') query_root mutation_root variables)).
Proof.
  split.
  - intros fragments fragments' variables fuel σ ast root field Hsame.
    by apply tree_same_fragments.
  - intros definitions definitions' fuel σ q m variables Hdefs.
    unfold compiled_query, request_from_graphql_document.
    cbn [Document.definitions].
    rewrite (operations_of_from definitions), (operations_of_from definitions').
    rewrite <- (operations_from_same_definitions _ _ Hdefs).
    destruct (single _) as [[i operation]| |]; simpl; try done.
    pose proof (fragments_of_same_definitions _ _ Hdefs) as Hsame.
    destruct (find names_schema _) as [[selection|]| |]; simpl; try done.
    + rewrite (proj1 (tree_same_fragments get_argument_values fields variables
                        _ _ Hsame fuel)).
      by destruct (request_from_graphql_ast _ _ _ _ _ _ _ _ _) as [[??]| |].
    + rewrite (proj1 (tree_same_fragments get_argument_values fields variables
                        _ _ Hsame fuel)).
      by destruct (request_from_graphql_ast _ _ _ _ _ _ _ _ _) as [[??]| |].
Qed.

Lemma X12_fragment_metadata_ignored_witness :
  compiled_query
    (compile_example store_a_spread
       [NOperationDefinition (query_at 1); fragment_at "F" 2] ∅) =
  compiled_query
    (compile_example store_a_spread
       [NOperationDefinition (query_at 1);
        NFragmentDefinition
          (FragmentDefinition.mk "F" "Other"
             [directive_if "skip" (BooleanValue true)] (SelectionSet.mk 2))]
       ∅) ∧
  compiled_query
    (compile_example store_a_spread
       [NOperationDefinition (query_at 1); fragment_at "F" 2] ∅) =
  Ok (mkRequest None None ∅
        (Some [mkRequest (Some "a") (Some scalar) ∅ None []]) []).
Proof.
  split; [|reflexivity].
  apply (proj2 (X12_fragment_metadata_ignored literal_argument_values
                  example_fields)).
  repeat constructor.
Defined.

(** ** Inline fragments among the selections of the operation *)

Lemma find_app_false {A} (p : A → res bool) pre l :
  Forall (λ x, p x = Ok false) pre → find p (pre ++ l) = find p l.
Proof.
  induction 1 as [|x pre Hx _ IH]; simpl; [done|]. by rewrite Hx.
Qed.

(** X13: the search for the introspection selection reads the name of the
    direct selections of the operation in order, and an inline fragment has
    no name: a document whose operation has an inline fragment among its
    direct selections, with no selection named [__schema] before it, is
    rejected with an AttributeError whatever else it contains, before any
    selection is expanded.  ([util.find] is taken to test the elements in
    list order up to the first match.) *)
Theorem X13_top_level_inline_fragment_rejected
    (get_argument_values :
       gmap string GraphQLArgument.t → list Argument.t → gmap string pyvalue →
       res (gmap string pyvalue))
    (fields : JoinType → gmap string FieldDesc.t)
    fuel (σ : store) document query_root mutation_root variables
    definition_index operation pre inline post :
  operations_of (Document.definitions document) =
    [(definition_index, operation)] →
  σ !!! SelectionSet.selections (OperationDefinition.selection_set operation) =
    pre ++ NInlineFragment inline :: post →
  Forall (λ selection,
            ∃ name, node_name_value selection = Ok name ∧ name ≠ "__schema")
    pre →
  request_from_graphql_document get_argument_values fields fuel σ document
    query_root mutation_root variables =
  Raise (AttributeError "'InlineFragment' object has no attribute 'name'").
Proof.
  intros Hops Hsel Hpre. unfold request_from_graphql_document.
  rewrite Hops. simpl. rewrite Hsel, find_app_false; [done|].
  eapply Forall_impl; [exact Hpre|]. intros selection (name & Hname & Hne).
  unfold names_schema. rewrite Hname. simpl. by rewrite bool_decide_eq_false_2.
Qed.

Lemma X13_top_level_inline_fragment_rejected_witness :
  compile_example store_a_inline_b [NOperationDefinition (query_at 1)] ∅ =
  Raise (AttributeError "'InlineFragment' object has no attribute 'name'").
Proof.
  apply (X13_top_level_inline_fragment_rejected literal_argument_values
           example_fields 16 store_a_inline_b
           (Document.mk [NOperationDefinition (query_at 1)]) "Root" "Root" ∅
           0 (query_at 1) [NField (leaf "a")]
           (InlineFragment.mk (Some "Root") [] (SelectionSet.mk 2)) []);
    [reflexivity..|].
  repeat constructor. by exists "a".
Defined.
